(** * go-trustedproxies: the trust walk over a forwarding header

    A shallow embedding of package [trustedproxies] (main.go) together with
    the parts of Go's standard library it calls ([strings.Split],
    [strings.TrimSpace], [net.ParseIP], [net.ParseCIDR], [net.CIDRMask],
    [net.IP.To4], [net.IPNet.Contains]).

    Conventions.
    - A Go [string] is a sequence of bytes: [String.string].
    - A byte is a [Z] in [0, 256); a Go byte slice that may be [nil] is an
      [option (list Z)], [None] being the nil slice.
    - A call that can panic returns an [outcome]. *)

From Stdlib Require Import ZArith List String Ascii Bool Lia.
Import ListNotations.
Open Scope Z_scope.
Open Scope bool_scope.

(** ** Byte views of Go strings *)

Definition byte_of_ascii (c : ascii) : Z := Z.of_N (N_of_ascii c).
Definition ascii_of_byte (b : Z) : ascii := ascii_of_N (Z.to_N b).

Definition bytes_of_string (s : string) : list Z :=
  map byte_of_ascii (list_ascii_of_string s).
Definition string_of_bytes (l : list Z) : string :=
  string_of_list_ascii (map ascii_of_byte l).

(** ** Package strings (Go standard library, strings/strings.go) *)
Module strings.

(** [strings.Split(s, sep)] for a one-byte separator, the only form used by
    the package: n separators give n+1 segments, so the result is never
    empty and [Split("", sep)] is [[""]]. *)
Fixpoint Split (s : string) (sep : ascii) : list string :=
  match s with
  | EmptyString => [EmptyString]
  | String c s' =>
      if Ascii.eqb c sep then EmptyString :: Split s' sep
      else match Split s' sep with
           | seg :: segs => String c seg :: segs
           | [] => [String c EmptyString]
           end
  end.

(** The table [asciiSpace]: tab, newline, vertical tab, form feed, carriage
    return and space. *)
Definition asciiSpace (c : Z) : bool :=
  (c =? 9) || (c =? 10) || (c =? 11) || (c =? 12) || (c =? 13) || (c =? 32).

(** [unicode.IsSpace] on the runes whose UTF-8 encoding takes two bytes:
    U+0085 (NEL) and U+00A0 (NBSP). *)
Definition space2 (c1 c2 : Z) : bool :=
  (c1 =? 194) && ((c2 =? 133) || (c2 =? 160)).

(** [unicode.IsSpace] on the runes whose UTF-8 encoding takes three bytes:
    U+1680, U+2000..U+200A, U+2028, U+2029, U+202F, U+205F and U+3000. *)
Definition space3 (c1 c2 c3 : Z) : bool :=
  ((c1 =? 225) && (c2 =? 154) && (c3 =? 128))
  || ((c1 =? 226) && (c2 =? 128)
      && (((128 <=? c3) && (c3 <=? 138)) || (c3 =? 168) || (c3 =? 169) || (c3 =? 175)))
  || ((c1 =? 226) && (c2 =? 129) && (c3 =? 159))
  || ((c1 =? 227) && (c2 =? 128) && (c3 =? 128)).

(** Leading white space removed, one rune at a time. An ill-formed byte
    decodes to U+FFFD, which is not white space, and stops the scan. *)
Fixpoint trimLeft (s : list Z) : list Z :=
  match s with
  | [] => []
  | c1 :: s1 =>
      if asciiSpace c1 then trimLeft s1
      else match s1 with
           | [] => s
           | c2 :: s2 =>
               if space2 c1 c2 then trimLeft s2
               else match s2 with
                    | [] => s
                    | c3 :: s3 => if space3 c1 c2 c3 then trimLeft s3 else s
                    end
           end
  end.

(** The same scan from the end of the string, on the reversed bytes: the last
    rune is found by stepping back to the nearest leading byte. *)
Fixpoint trimLeftRev (r : list Z) : list Z :=
  match r with
  | [] => []
  | c1 :: r1 =>
      if asciiSpace c1 then trimLeftRev r1
      else match r1 with
           | [] => r
           | c2 :: r2 =>
               if space2 c2 c1 then trimLeftRev r2
               else match r2 with
                    | [] => r
                    | c3 :: r3 => if space3 c3 c2 c1 then trimLeftRev r3 else r
                    end
           end
  end.

Definition trimRight (s : list Z) : list Z := rev (trimLeftRev (rev s)).

(** [strings.TrimSpace]: all leading and trailing white space, as defined by
    Unicode, removed. *)
Definition TrimSpace (s : string) : string :=
  string_of_bytes (trimRight (trimLeft (bytes_of_string s))).

End strings.

(** ** Package net/netip (Go standard library, net/netip/netip.go): address parsing *)
Module netip.

(** An address as [ParseAddr] produces it: the family it was written in, its
    16-byte form ([As16], an IPv4 address being mapped into ::ffff:0:0/96)
    and its zone. *)
Record Addr := mkAddr { Is4 : bool; As16 : list Z; Zone : list Z }.

Definition v4Mapped : list Z := [0; 0; 0; 0; 0; 0; 0; 0; 0; 0; 255; 255].

Definition AddrFrom4 (fields : list Z) : Addr := mkAddr true (v4Mapped ++ fields) [].

Definition BitLen (a : Addr) : Z := if Is4 a then 32 else 128.

Definition isDigit (c : Z) : bool := (48 <=? c) && (c <=? 57).

Definition isEmpty {A : Type} (l : list A) : bool :=
  match l with [] => true | _ :: _ => false end.

(** The loop of [parseIPv4Fields] over the bytes still to read. [first] is
    [i == 0], [prevDot] is [s[i-1] == '.'], the fields stored so far are
    [fields] and [pos] is their number. *)
Fixpoint parseIPv4Loop (s : list Z) (first prevDot : bool) (val digLen : Z)
    (fields : list Z) : option (list Z) :=
  match s with
  | [] =>
      if Z.of_nat (List.length fields) <? 3 then None
      else Some (fields ++ [val])
  | c :: s' =>
      if isDigit c then
        if (digLen =? 1) && (val =? 0) then None
        else
          let val := val * 10 + (c - 48) in
          if val >? 255 then None
          else parseIPv4Loop s' false false val (digLen + 1) fields
      else if c =? 46 then
        if first || isEmpty s' || prevDot then None
        else if Z.of_nat (List.length fields) =? 3 then None
        else parseIPv4Loop s' false true 0 0 (fields ++ [val])
      else None
  end.

Definition parseIPv4Fields (s : list Z) : option (list Z) :=
  parseIPv4Loop s true false 0 0 [].

Definition parseIPv4 (s : list Z) : option Addr :=
  match parseIPv4Fields s with
  | Some fields => Some (AddrFrom4 fields)
  | None => None
  end.

Definition hexVal (c : Z) : option Z :=
  if (48 <=? c) && (c <=? 57) then Some (c - 48)
  else if (97 <=? c) && (c <=? 102) then Some (c - 97 + 10)
  else if (65 <=? c) && (c <=? 70) then Some (c - 65 + 10)
  else None.

(** The inner loop of [parseIPv6] reading one hexadecimal group: the value,
    the number of digits read and the bytes left; [None] when the group has
    more than four digits. *)
Fixpoint hexGroup (s : list Z) (off acc : Z) : option (Z * Z * list Z) :=
  match s with
  | [] => Some (acc, off, [])
  | c :: s' =>
      match hexVal c with
      | None => Some (acc, off, s)
      | Some d =>
          let acc := Z.shiftl acc 4 + d in
          if off >? 3 then None
          else if acc >? 65535 then None
          else hexGroup s' (off + 1) acc
      end
  end.

Definition startsWith (c : Z) (s : list Z) : bool :=
  match s with x :: _ => x =? c | [] => false end.

Definition isSome {A : Type} (o : option A) : bool :=
  match o with Some _ => true | None => false end.

(** The outer loop [for i < 16] of [parseIPv6]. [ip] holds the [i] bytes
    written so far; [n] counts the 16-bit groups that still fit, so [n = 0]
    is [i = 16]. The result is the state at loop exit: the unread bytes, the
    bytes written and the position of the ellipsis. *)
Fixpoint parseIPv6Groups (n : nat) (s ip : list Z) (ellipsis : option Z)
    : option (list Z * list Z * option Z) :=
  match n with
  | O => Some (s, ip, ellipsis)
  | S n' =>
      match hexGroup s 0 0 with
      | None => None
      | Some (acc, off, rest) =>
          if off =? 0 then None
          else if startsWith 46 rest then
            let i := Z.of_nat (List.length ip) in
            if negb (isSome ellipsis) && negb (i =? 12) then None
            else if i + 4 >? 16 then None
            else match parseIPv4Fields s with
                 | None => None
                 | Some fields => Some ([], ip ++ fields, ellipsis)
                 end
          else
            let ip := ip ++ [Z.shiftr acc 8; Z.land acc 255] in
            let i := Z.of_nat (List.length ip) in
            match rest with
            | [] => Some ([], ip, ellipsis)
            | c :: s1 =>
                if negb (c =? 58) then None
                else match s1 with
                     | [] => None
                     | c1 :: s2 =>
                         if c1 =? 58 then
                           if isSome ellipsis then None
                           else if isEmpty s2 then Some ([], ip, Some i)
                           else parseIPv6Groups n' s2 ip (Some i)
                         else parseIPv6Groups n' s1 ip ellipsis
                     end
            end
      end
  end.

(** [s] cut at the first byte [c]: what precedes it and what follows it. *)
Fixpoint cutAt (c : Z) (s : list Z) : option (list Z * list Z) :=
  match s with
  | [] => None
  | x :: s' =>
      if x =? c then Some ([], s')
      else match cutAt c s' with
           | Some (pre, post) => Some (x :: pre, post)
           | None => None
           end
  end.

Definition parseIPv6 (input : list Z) : option Addr :=
  match (match cutAt 37 input with
         | Some (s, zone) => if isEmpty zone then None else Some (s, zone)
         | None => Some (input, [])
         end) with
  | None => None
  | Some (s, zone) =>
      let '(s, ellipsis, onlyEllipsis) :=
        match s with
        | 58 :: 58 :: s' => (s', Some 0, isEmpty s')
        | _ => (s, None, false)
        end in
      if onlyEllipsis then Some (mkAddr false (repeat 0 16) zone)
      else
        match parseIPv6Groups 8 s [] ellipsis with
        | None => None
        | Some (s, ip, ellipsis) =>
            if negb (isEmpty s) then None
            else
              let i := Z.of_nat (List.length ip) in
              if i <? 16 then
                match ellipsis with
                | None => None
                | Some e =>
                    let e := Z.to_nat e in
                    Some (mkAddr false
                            (firstn e ip ++ repeat 0 (Z.to_nat (16 - i)) ++ skipn e ip)
                            zone)
                end
              else if isSome ellipsis then None
              else Some (mkAddr false ip zone)
        end
  end.

(** The first of '.', ':' and '%' in [s], which selects the parser. *)
Fixpoint firstMark (s : list Z) : option Z :=
  match s with
  | [] => None
  | c :: s' =>
      if (c =? 46) || (c =? 58) || (c =? 37) then Some c else firstMark s'
  end.

Definition ParseAddrBytes (s : list Z) : option Addr :=
  match firstMark s with
  | Some c =>
      if c =? 46 then parseIPv4 s
      else if c =? 58 then parseIPv6 s
      else None
  | None => None
  end.

Definition ParseAddr (s : string) : option Addr := ParseAddrBytes (bytes_of_string s).

End netip.

(** ** Package net (Go standard library, net/ip.go): addresses, masks and networks *)
Module net.

(** [net.IP] and [net.IPMask] are byte slices; [None] is the nil slice. *)
Definition IP : Type := option (list Z).
Definition IPMask : Type := option (list Z).

Record IPNet := mkIPNet { IPNet_IP : IP; IPNet_Mask : IPMask }.

Definition IPv4len : Z := 4.
Definition IPv6len : Z := 16.

Definition len (s : option (list Z)) : Z :=
  match s with None => 0 | Some l => Z.of_nat (List.length l) end.

Definition elems (s : option (list Z)) : list Z :=
  match s with None => [] | Some l => l end.

Definition isNil (s : option (list Z)) : bool :=
  match s with None => true | Some _ => false end.

Definition v4InV6Prefix : list Z := [0; 0; 0; 0; 0; 0; 0; 0; 0; 0; 255; 255].

Definition isZeros (p : list Z) : bool := forallb (Z.eqb 0) p.
Definition allFF (b : list Z) : bool := forallb (Z.eqb 255) b.

Fixpoint bytesEqual (a b : list Z) : bool :=
  match a, b with
  | [], [] => true
  | x :: a', y :: b' => (x =? y) && bytesEqual a' b'
  | _, _ => false
  end.

(** [ip.To4()]: the 4-byte form of an IPv4 address, also when it is held in
    16 bytes under the prefix ::ffff:0:0/96; nil for anything else. *)
Definition To4 (ip : IP) : IP :=
  if len ip =? IPv4len then ip
  else if (len ip =? IPv6len)
          && isZeros (firstn 10 (elems ip))
          && (nth 10 (elems ip) 0 =? 255)
          && (nth 11 (elems ip) 0 =? 255)
       then Some (firstn 4 (skipn 12 (elems ip)))
  else None.

(** The loop of [CIDRMask]: [l] bytes, the first [n] bits set. *)
Fixpoint maskBytes (l : nat) (n : Z) : list Z :=
  match l with
  | O => []
  | S l' =>
      if n >=? 8 then 255 :: maskBytes l' (n - 8)
      else Z.lxor 255 (Z.shiftr 255 n) :: maskBytes l' 0
  end.

Definition CIDRMask (ones bits : Z) : IPMask :=
  if negb (bits =? 8 * IPv4len) && negb (bits =? 8 * IPv6len) then None
  else if (ones <? 0) || (ones >? bits) then None
  else Some (maskBytes (Z.to_nat (bits / 8)) ones).

Fixpoint andBytes (a m : list Z) : list Z :=
  match a, m with
  | x :: a', y :: m' => Z.land x y :: andBytes a' m'
  | _, _ => []
  end.

(** [ip.Mask(mask)]. *)
Definition Mask (ip : IP) (mask : IPMask) : IP :=
  let mask :=
    if (len mask =? IPv6len) && (len ip =? IPv4len) && allFF (firstn 12 (elems mask))
    then Some (skipn 12 (elems mask)) else mask in
  let ip :=
    if (len mask =? IPv4len) && (len ip =? IPv6len)
       && bytesEqual (firstn 12 (elems ip)) v4InV6Prefix
    then Some (skipn 12 (elems ip)) else ip in
  if negb (len ip =? len mask) then None
  else Some (andBytes (elems ip) (elems mask)).

(** [net.ParseIP]: the 16-byte form of the address, nil when [s] is not an
    address or carries a zone. *)
Definition ParseIP (s : string) : IP :=
  match netip.ParseAddr s with
  | Some a => if netip.isEmpty (netip.Zone a) then Some (netip.As16 a) else None
  | None => None
  end.

Definition big : Z := 16777215.

(** [dtoi]: the decimal number that starts [s], the number of bytes it takes
    and whether there was one. *)
Fixpoint dtoiLoop (s : list Z) (n i : Z) : Z * Z * bool :=
  match s with
  | c :: s' =>
      if netip.isDigit c then
        let n := n * 10 + (c - 48) in
        if n >=? big then (big, i, false) else dtoiLoop s' n (i + 1)
      else if i =? 0 then (0, 0, false) else (n, i, true)
  | [] => if i =? 0 then (0, 0, false) else (n, i, true)
  end.

Definition dtoi (s : list Z) : Z * Z * bool := dtoiLoop s 0 0.

(** [net.ParseCIDR]: the address and the network of "address/prefix-length";
    [None] stands for a non-nil error. *)
Definition ParseCIDR (s : string) : option (IP * IPNet) :=
  match netip.cutAt 47 (bytes_of_string s) with
  | None => None
  | Some (addr, mask) =>
      match netip.ParseAddrBytes addr with
      | None => None
      | Some ipAddr =>
          if negb (netip.isEmpty (netip.Zone ipAddr)) then None
          else
            let '(n, i, ok) := dtoi mask in
            if negb ok || negb (i =? Z.of_nat (List.length mask))
               || (n <? 0) || (n >? netip.BitLen ipAddr)
            then None
            else
              let m := CIDRMask n (netip.BitLen ipAddr) in
              let addr16 : IP := Some (netip.As16 ipAddr) in
              Some (addr16, mkIPNet (Mask addr16 m) m)
      end
  end.

Definition networkNumberAndMask (n : IPNet) : IP * IPMask :=
  match (match To4 (IPNet_IP n) with
         | Some ip4 => Some (Some ip4)
         | None =>
             if negb (len (IPNet_IP n) =? IPv6len) then None
             else Some (IPNet_IP n)
         end) with
  | None => (None, None)
  | Some ip =>
      let m := IPNet_Mask n in
      if len m =? IPv4len then
        if negb (len ip =? IPv4len) then (None, None) else (ip, m)
      else if len m =? IPv6len then
        if len ip =? IPv4len then (ip, Some (skipn 12 (elems m))) else (ip, m)
      else (None, None)
  end.

(** The comparison loop of [Contains]: no index [i] with
    [nn[i]&m[i] != ip[i]&m[i]]. The three slices have one length there. *)
Fixpoint sameUnderMask (nn ip m : list Z) : bool :=
  match nn, ip, m with
  | a :: nn', b :: ip', c :: m' =>
      (Z.land a c =? Z.land b c) && sameUnderMask nn' ip' m'
  | _, _, _ => true
  end.

(** [n.Contains(ip)]. *)
Definition Contains (n : IPNet) (ip : IP) : bool :=
  let '(nn, m) := networkNumberAndMask n in
  let ip := match To4 ip with Some x => Some x | None => ip end in
  if negb (len ip =? len nn) then false
  else sameUnderMask (elems nn) (elems ip) (elems m).

End net.

(** ** Panics and results *)

(** The run-time panic the package can raise: a slice indexed out of its
    range, with the index and the length of the slice. *)
Inductive panic : Type :=
| IndexOutOfRange (index length : Z).

(** What a call does: it returns a value, or it panics; [Unfinished] is a
    loop cut short by its iteration bound (see [filterOut_finishes]: the
    bound used is never reached). *)
Inductive outcome (A : Type) : Type :=
| Returned (a : A)
| Panicked (p : panic)
| Unfinished.
Arguments Returned {A} a.
Arguments Panicked {A} p.
Arguments Unfinished {A}.

(** [s[i]] on a slice. *)
Definition index {A : Type} (s : list A) (i : Z) : outcome A :=
  if i <? 0 then Panicked (IndexOutOfRange i (Z.of_nat (List.length s)))
  else match nth_error s (Z.to_nat i) with
       | Some x => Returned x
       | None => Panicked (IndexOutOfRange i (Z.of_nat (List.length s)))
       end.

(** ** Package trustedproxies (main.go) *)

Inductive error : Type :=
| ErrInvalidIPSpecification
| Errorf_w (wrapped : error) (text : string).

Record TrustedProxies := mkTrustedProxies { trustedCIDRs : list net.IPNet }.

Definition New : TrustedProxies := mkTrustedProxies [].

Definition netFromIPOrCIDR (s : string) : net.IPNet + error :=
  match net.ParseCIDR s with
  | Some (_, ipnet) => inl ipnet
  | None =>
      let ip := net.ParseIP s in
      if net.isNil ip then inr (Errorf_w ErrInvalidIPSpecification s)
      else
        let ipv4 := net.To4 ip in
        let ip := if negb (net.isNil ipv4) then ipv4 else ip in
        let mask := net.CIDRMask (8 * net.len ip) (8 * net.len ip) in
        inl (net.mkIPNet ip mask)
  end.

(** The receiver is updated in place: the call yields the new store next to
    the returned error, [None] being the nil error. *)
Definition AddFromString (t : TrustedProxies) (s : string)
    : TrustedProxies * option error :=
  match netFromIPOrCIDR s with
  | inr _ => (t, None)
  | inl ipnet => (mkTrustedProxies (trustedCIDRs t ++ [ipnet]), None)
  end.

(** The matching network, [None] being the nil pointer. *)
Definition IsIPTrusted (t : TrustedProxies) (ip : net.IP) : option net.IPNet :=
  find (fun ipnet => net.Contains ipnet ip) (trustedCIDRs t).

Definition headerToIPs (headerValue : string) : list net.IP :=
  let items := strings.Split headerValue "," in
  if (List.length items =? 1)%nat
     && String.eqb (strings.TrimSpace (nth 0 items EmptyString)) EmptyString
  then []
  else map (fun val => net.ParseIP (strings.TrimSpace val)) items.

(** The loop [for { ... }] of [filterOutIPsFromUntrustedSources], at most
    [fuel] iterations of it. Every element of [ips] is the address of a
    variable, never a nil pointer, so an element is modelled by the [net.IP]
    it points to and [ip == nil || *ip == nil] is [net.isNil ip]. *)
Fixpoint walk (t : TrustedProxies) (ips : list net.IP) (fuel : nat) (idx : Z)
    (rv : list net.IP) : outcome (list net.IP) :=
  match fuel with
  | O => Unfinished
  | S fuel' =>
      match index ips idx with
      | Returned ip =>
          if net.isNil ip then Returned rv
          else
            let rv := rv ++ [ip] in
            if netip.isSome (IsIPTrusted t ip) then walk t ips fuel' (idx - 1) rv
            else Returned rv
      | Panicked p => Panicked p
      | Unfinished => Unfinished
      end
  end.

Definition filterOutIPsFromUntrustedSources (t : TrustedProxies)
    (remoteAddr : net.IP) (header : string) : outcome (list net.IP) :=
  let rv := [] in
  let ips := headerToIPs header in
  let ips := ips ++ [remoteAddr] in
  let idx := Z.of_nat (List.length ips) - 1 in
  walk t ips (S (List.length ips)) idx rv.

Definition DeduceClientIP (t : TrustedProxies) (remoteAddr : net.IP)
    (header : string) : outcome net.IP :=
  match filterOutIPsFromUntrustedSources t remoteAddr header with
  | Returned trustedIPs => index trustedIPs (Z.of_nat (List.length trustedIPs) - 1)
  | Panicked p => Panicked p
  | Unfinished => Unfinished
  end.

(** A store set up as the tests and the README do: [New()], then one
    [AddFromString] per specification. *)
Definition trusting (specs : list string) : TrustedProxies :=
  fold_left (fun t spec => fst (AddFromString t spec)) specs New.

(** ** The walk, element by element

    [scan] is the loop of [walk] read over the elements in the order the loop
    visits them ([back] is the part of the chain not yet visited, nearest
    first, and [n] the length of the whole chain). [walk_scan] proves that
    the indexed loop computes it. *)
Fixpoint scan (t : TrustedProxies) (n : Z) (back rv : list net.IP)
    : outcome (list net.IP) :=
  match back with
  | [] => Panicked (IndexOutOfRange (-1) n)
  | ip :: back' =>
      if net.isNil ip then Returned rv
      else if netip.isSome (IsIPTrusted t ip) then scan t n back' (rv ++ [ip])
      else Returned (rv ++ [ip])
  end.

(** An entry of the chain the walk goes past: a real address that the store
    trusts. *)
Definition passed (t : TrustedProxies) (ip : net.IP) : Prop :=
  net.isNil ip = false /\ IsIPTrusted t ip <> None.

(** The address families. An address is IPv4 when [To4] yields its 4-byte
    form (it is held in 4 bytes, or in 16 bytes under ::ffff:0:0/96, the
    IPv4-mapped form), and IPv6 when it is any other 16-byte value. *)
Inductive family : Type := V4 | V6.

Definition familyOfIP (ip : net.IP) : option family :=
  if netip.isSome (net.To4 ip) then Some V4
  else if net.len ip =? net.IPv6len then Some V6
  else None.

(** The family a stored range is a prefix over, read off what is stored: a
    4-byte base address with a 4-byte mask is a range of 32-bit addresses, a
    16-byte base address with a 16-byte mask a range of 128-bit addresses. *)
Definition familyOfRange (n : net.IPNet) : option family :=
  if (net.len (net.IPNet_IP n) =? 4) && (net.len (net.IPNet_Mask n) =? 4)
  then Some V4
  else if (net.len (net.IPNet_IP n) =? 16) && (net.len (net.IPNet_Mask n) =? 16)
  then Some V6
  else None.

(** [if x := ip.To4(); x != nil { ip = x }], the normalisation that both
    [netFromIPOrCIDR] and [Contains] apply to an address. *)
Definition normalized (ip : net.IP) : net.IP :=
  match net.To4 ip with Some x => Some x | None => ip end.

(** White space, independently of the scanning functions above: the UTF-8
    encodings of the runes with Unicode's White_Space property (U+0009 to
    U+000D, U+0020, U+0085, U+00A0, U+1680, U+2000 to U+200A, U+2028,
    U+2029, U+202F, U+205F, U+3000). *)
Definition whiteRunes : list (list Z) :=
  [[9]; [10]; [11]; [12]; [13]; [32];
   [194; 133]; [194; 160];
   [225; 154; 128];
   [226; 128; 128]; [226; 128; 129]; [226; 128; 130]; [226; 128; 131];
   [226; 128; 132]; [226; 128; 133]; [226; 128; 134]; [226; 128; 135];
   [226; 128; 136]; [226; 128; 137]; [226; 128; 138];
   [226; 128; 168]; [226; 128; 169]; [226; 128; 175];
   [226; 129; 159];
   [227; 128; 128]].

(** A text made of white space only. *)
Definition white (s : string) : Prop :=
  exists runes,
    Forall (fun w => In w whiteRunes) runes /\ bytes_of_string s = List.concat runes.

(** A printable ASCII byte other than the space. *)
Definition solid (b : Z) : Prop := 32 < b < 127.

(** A text with no white space at either end: it is empty, or its first and
    its last byte are printable ASCII other than the space. *)
Definition tight (s : string) : Prop :=
  solid (hd 33 (bytes_of_string s)) /\ solid (last (bytes_of_string s) 33).

Definition noComma (s : string) : Prop := ~ In 44 (bytes_of_string s).

(** The segments of a header put together: a comma between one and the next. *)
Fixpoint joinCommas (segs : list string) : string :=
  match segs with
  | [] => EmptyString
  | seg :: rest =>
      match rest with
      | [] => seg
      | _ :: _ => (seg ++ String "," (joinCommas rest))%string
      end
  end.

(** One segment of a header, as a sender may write it: a text with white
    space before and after it. *)
Record part : Type := mkPart { lead : string; core : string; trail : string }.

Definition padded (p : part) : string := (lead p ++ core p ++ trail p)%string.

Definition goodPart (p : part) : Prop :=
  white (lead p) /\ white (trail p) /\ tight (core p) /\ noComma (core p).

(** A byte value. *)
Definition isByte (b : Z) : Prop := 0 <= b < 256.

(** A network as the parsers of package net build it: an address and a mask
    of one length, 4 or 16 bytes. *)
Definition wellFormed (n : net.IPNet) : Prop :=
  exists ip m,
    net.IPNet_IP n = Some ip /\ net.IPNet_Mask n = Some m
    /\ List.length ip = List.length m
    /\ (List.length ip = 4%nat \/ List.length ip = 16%nat).

(** The networks of the specifications that [netFromIPOrCIDR] accepts, in
    the order of the specifications. *)
Definition networksOf (specs : list string) : list net.IPNet :=
  flat_map (fun spec => match netFromIPOrCIDR spec with
                        | inl ipnet => [ipnet]
                        | inr _ => []
                        end) specs.

(** The entry that [headerToIPs] makes of one segment of the header. *)
Definition entryOf (seg : string) : net.IP := net.ParseIP (strings.TrimSpace seg).

(** * Properties *)

(** ** The test tables of the repository, evaluated *)

Local Open Scope string_scope.

Example Test_netFromIPOrCIDR :
  netFromIPOrCIDR "192.168.10.10/25"
    = inl (net.mkIPNet (Some [192; 168; 10; 0]) (Some [255; 255; 255; 128]))
  /\ netFromIPOrCIDR "[2001:0db8:85a3:0000:0000:8a2e:0370:7334]/123"
    = inr (Errorf_w ErrInvalidIPSpecification
             "[2001:0db8:85a3:0000:0000:8a2e:0370:7334]/123")
  /\ netFromIPOrCIDR "192.168.10.10"
    = inl (net.mkIPNet (Some [192; 168; 10; 10]) (Some [255; 255; 255; 255]))
  /\ (forall ipnet, net.ParseCIDR "192.168.10.10/32" = Some ipnet ->
        netFromIPOrCIDR "192.168.10.10" = inl (snd ipnet))
  /\ (forall ipnet,
        net.ParseCIDR "2001:0db8:85a3:0000:0000:8a2e:0370:7334/128" = Some ipnet ->
        netFromIPOrCIDR "2001:0db8:85a3:0000:0000:8a2e:0370:7334" = inl (snd ipnet)).
Proof.
  repeat split; try reflexivity;
    intros ipnet H; vm_compute in H; injection H as <-; reflexivity.
Qed.

Example TestTrustedProxies :
  IsIPTrusted (trusting []) (net.ParseIP "192.168.10.2") = None
  /\ IsIPTrusted (trusting ["192.168.10.10/24"; "this is not valid"])
       (net.ParseIP "192.168.10.2")
     = Some (net.mkIPNet (Some [192; 168; 10; 0]) (Some [255; 255; 255; 0]))
  /\ IsIPTrusted (trusting ["192.168.10.10/24"]) (net.ParseIP "192.168.11.2") = None.
Proof. repeat split; reflexivity. Qed.

Example Test_headerToIPs :
  headerToIPs "" = []
  /\ headerToIPs " " = []
  /\ headerToIPs "10.10.10.10" = [net.ParseIP "10.10.10.10"]
  /\ headerToIPs "10.10.10.10, , 20.20.20.20"
     = [net.ParseIP "10.10.10.10"; None; net.ParseIP "20.20.20.20"].
Proof. repeat split; reflexivity. Qed.

Example Test_filterOutIPsFromUntrustedSources :
  filterOutIPsFromUntrustedSources (trusting []) (net.ParseIP "10.10.10.10") ""
    = Returned [net.ParseIP "10.10.10.10"]
  /\ filterOutIPsFromUntrustedSources (trusting ["10.10.10.10"])
       (net.ParseIP "10.10.10.10") " 1 2 2 horse 43 2 2 1 "
    = Returned [net.ParseIP "10.10.10.10"]
  /\ filterOutIPsFromUntrustedSources (trusting ["10.10.10.10"; "20.20.20.20"])
       (net.ParseIP "10.10.10.10") "30.30.30.30, 20.20.20.20"
    = Returned [net.ParseIP "10.10.10.10"; net.ParseIP "20.20.20.20";
                net.ParseIP "30.30.30.30"]
  /\ filterOutIPsFromUntrustedSources (trusting ["30.30.30.30"])
       (net.ParseIP "10.10.10.10") "30.30.30.30, 20.20.20.20"
    = Returned [net.ParseIP "10.10.10.10"].
Proof. repeat split; reflexivity. Qed.

Example TestFromREADME :
  DeduceClientIP (trusting ["10.10.10.10"; "20.20.20.20"])
    (net.ParseIP "10.10.10.10") "40.40.40.40, 30.30.30.30, 20.20.20.20"
  = Returned (net.ParseIP "30.30.30.30").
Proof. reflexivity. Qed.

(** Textual forms across families: an IPv4 address written in the
    IPv4-mapped IPv6 form is matched by an IPv4 entry and not by the IPv6
    network ::/0; an IPv6 address is matched by no IPv4 network. *)
Example mapped_forms :
  IsIPTrusted (trusting ["10.10.10.10"]) (net.ParseIP "::ffff:10.10.10.10")
    = Some (net.mkIPNet (Some [10; 10; 10; 10]) (Some [255; 255; 255; 255]))
  /\ IsIPTrusted (trusting ["::ffff:10.10.10.10"]) (net.ParseIP "10.10.10.10")
    = Some (net.mkIPNet (Some [10; 10; 10; 10]) (Some [255; 255; 255; 255]))
  /\ IsIPTrusted (trusting ["::/0"]) (net.ParseIP "10.10.10.10") = None
  /\ IsIPTrusted (trusting ["::/0"]) (net.ParseIP "::ffff:10.10.10.10") = None
  /\ IsIPTrusted (trusting ["0.0.0.0/0"]) (net.ParseIP "::1") = None.
Proof. repeat split; reflexivity. Qed.

Local Close Scope string_scope.

(** ** The indexed loop and the scan agree *)

Lemma index_nat {A : Type} (s : list A) (k : nat) (x : A) :
  nth_error s k = Some x -> index s (Z.of_nat (S k) - 1) = Returned x.
Proof.
  intros Hx. unfold index.
  replace (Z.of_nat (S k) - 1)%Z with (Z.of_nat k) by lia.
  destruct (Z.of_nat k <? 0)%Z eqn:E; [apply Z.ltb_lt in E; lia|].
  now rewrite Nat2Z.id, Hx.
Qed.

Lemma firstn_snoc {A : Type} (s : list A) (k : nat) (x : A) :
  nth_error s k = Some x -> firstn (S k) s = firstn k s ++ [x].
Proof.
  revert k. induction s as [|a s IH]; intros [|k] Hx; simpl in *; try discriminate.
  - now injection Hx as ->.
  - now rewrite (IH k Hx).
Qed.

Lemma walk_scan (t : TrustedProxies) (ips : list net.IP) :
  forall (k fuel : nat) (rv : list net.IP),
    (k <= List.length ips)%nat -> (k < fuel)%nat ->
    walk t ips fuel (Z.of_nat k - 1) rv
    = scan t (Z.of_nat (List.length ips)) (rev (firstn k ips)) rv.
Proof.
  induction k as [|k IH]; intros [|fuel] rv Hk Hf; try lia.
  - reflexivity.
  - destruct (nth_error ips k) as [x|] eqn:Hx.
    2:{ apply nth_error_None in Hx. lia. }
    rewrite (firstn_snoc _ _ _ Hx), rev_app_distr.
    change (rev [x] ++ rev (firstn k ips)) with (x :: rev (firstn k ips)).
    cbn [walk scan]. rewrite (index_nat _ _ _ Hx).
    destruct (net.isNil x); [reflexivity|].
    destruct (netip.isSome (IsIPTrusted t x)); [|reflexivity].
    replace (Z.of_nat (S k) - 1 - 1)%Z with (Z.of_nat k - 1)%Z by lia.
    apply IH; lia.
Qed.

Lemma filterOut_scan (t : TrustedProxies) (remoteAddr : net.IP) (header : string) :
  filterOutIPsFromUntrustedSources t remoteAddr header
  = scan t (Z.of_nat (List.length (headerToIPs header ++ [remoteAddr])))
      (remoteAddr :: rev (headerToIPs header)) [].
Proof.
  unfold filterOutIPsFromUntrustedSources.
  rewrite walk_scan by lia.
  now rewrite firstn_all, rev_app_distr.
Qed.

(** ** Where the scan stops *)

Section Scan.

Variable t : TrustedProxies.
Variable n : Z.

Lemma isSome_trusted (ip : net.IP) :
  netip.isSome (IsIPTrusted t ip) = true <-> IsIPTrusted t ip <> None.
Proof.
  destruct (IsIPTrusted t ip); simpl; split; intros H; congruence.
Qed.

Lemma isSome_untrusted (ip : net.IP) :
  netip.isSome (IsIPTrusted t ip) = false <-> IsIPTrusted t ip = None.
Proof.
  destruct (IsIPTrusted t ip); simpl; split; intros H; congruence.
Qed.

(** Nothing but trusted addresses: the scan runs off the chain. *)
Lemma scan_exhausted (back rv : list net.IP) :
  Forall (passed t) back ->
  scan t n back rv = Panicked (IndexOutOfRange (-1) n).
Proof.
  intros H. revert rv.
  induction H as [|ip back [Hnil Htr] _ IH]; intros rv; simpl.
  - reflexivity.
  - apply isSome_trusted in Htr. now rewrite Hnil, Htr.
Qed.

(** A nil entry ends the scan and is left out of the result. *)
Lemma scan_stop_nil (near far rv : list net.IP) (x : net.IP) :
  Forall (passed t) near -> net.isNil x = true ->
  scan t n (near ++ x :: far) rv = Returned (rv ++ near).
Proof.
  intros H Hx. revert rv.
  induction H as [|ip near [Hnil Htr] _ IH]; intros rv; simpl.
  - now rewrite Hx, app_nil_r.
  - apply isSome_trusted in Htr. rewrite Hnil, Htr, IH.
    now rewrite <- app_assoc.
Qed.

(** An untrusted address ends the scan and closes the result. *)
Lemma scan_stop_untrusted (near far rv : list net.IP) (x : net.IP) :
  Forall (passed t) near -> net.isNil x = false -> IsIPTrusted t x = None ->
  scan t n (near ++ x :: far) rv = Returned (rv ++ near ++ [x]).
Proof.
  intros H Hx Hu. revert rv.
  induction H as [|ip near [Hnil Htr] _ IH]; intros rv; simpl.
  - apply isSome_untrusted in Hu. now rewrite Hx, Hu.
  - apply isSome_trusted in Htr. rewrite Hnil, Htr, IH.
    now rewrite <- app_assoc.
Qed.

(** Every returning scan is one of the two stops above. *)
Lemma scan_returned (back rv chain : list net.IP) :
  scan t n back rv = Returned chain ->
  exists near x far,
    back = near ++ x :: far /\ Forall (passed t) near
    /\ ((net.isNil x = true /\ chain = rv ++ near)
        \/ (net.isNil x = false /\ IsIPTrusted t x = None
            /\ chain = rv ++ near ++ [x])).
Proof.
  revert rv. induction back as [|ip back IH]; intros rv H; simpl in H.
  - discriminate.
  - destruct (net.isNil ip) eqn:Hnil.
    + injection H as <-. exists [], ip, back.
      repeat split; [constructor|]. left. now rewrite app_nil_r.
    + destruct (netip.isSome (IsIPTrusted t ip)) eqn:Htr.
      * destruct (IH _ H) as (near & x & far & -> & Hnear & Hstop).
        exists (ip :: near), x, far. split; [reflexivity|]. split.
        { constructor; [|assumption]. split; [assumption|].
          now apply isSome_trusted. }
        destruct Hstop as [[Hx ->]|(Hx & Hu & ->)]; [left|right];
          repeat split; try assumption; now rewrite <- app_assoc.
      * injection H as <-. exists [], ip, back.
        repeat split; [constructor|]. right.
        repeat split; [assumption|now apply isSome_untrusted].
Qed.

Lemma scan_finishes (back rv : list net.IP) : scan t n back rv <> Unfinished.
Proof.
  revert rv. induction back as [|ip back IH]; intros rv; simpl.
  - discriminate.
  - destruct (net.isNil ip); [discriminate|].
    destruct (netip.isSome (IsIPTrusted t ip)); [apply IH|discriminate].
Qed.

(** The scan returns unless every entry is a trusted address. *)
Lemma scan_outcome (back rv : list net.IP) :
  (exists chain, scan t n back rv = Returned chain)
  \/ (Forall (passed t) back
      /\ scan t n back rv = Panicked (IndexOutOfRange (-1) n)).
Proof.
  revert rv. induction back as [|ip back IH]; intros rv; simpl.
  - right. split; [constructor|reflexivity].
  - destruct (net.isNil ip) eqn:Hnil; [left; now exists rv|].
    destruct (netip.isSome (IsIPTrusted t ip)) eqn:Htr;
      [|left; now exists (rv ++ [ip])].
    destruct (IH (rv ++ [ip])) as [Hret|[Hall Hp]]; [now left|right].
    split; [|assumption]. constructor; [|assumption].
    split; [assumption|now apply isSome_trusted].
Qed.

End Scan.

(** The iteration bound of [filterOutIPsFromUntrustedSources] is never
    reached: the call returns or panics. *)
Lemma filterOut_finishes (t : TrustedProxies) (remoteAddr : net.IP) (header : string) :
  filterOutIPsFromUntrustedSources t remoteAddr header <> Unfinished.
Proof. rewrite filterOut_scan. apply scan_finishes. Qed.

Lemma DeduceClientIP_finishes (t : TrustedProxies) (remoteAddr : net.IP)
    (header : string) :
  DeduceClientIP t remoteAddr header <> Unfinished.
Proof.
  unfold DeduceClientIP.
  pose proof (filterOut_finishes t remoteAddr header) as H.
  destruct (filterOutIPsFromUntrustedSources t remoteAddr header) as [l| |];
    [|discriminate|contradiction].
  unfold index. destruct (_ <? 0); [discriminate|].
  destruct (nth_error l _); discriminate.
Qed.

(** ** The last element of a slice *)

Lemma index_last {A : Type} (init : list A) (x : A) :
  index (init ++ [x]) (Z.of_nat (List.length (init ++ [x])) - 1) = Returned x.
Proof.
  rewrite length_app, Nat.add_comm. apply index_nat.
  rewrite nth_error_app2, Nat.sub_diag by lia. reflexivity.
Qed.

Lemma index_last_empty {A : Type} :
  index (@nil A) (Z.of_nat (List.length (@nil A)) - 1)
  = Panicked (IndexOutOfRange (-1) 0).
Proof. reflexivity. Qed.

Lemma index_last_inv {A : Type} (s : list A) (x : A) :
  index s (Z.of_nat (List.length s) - 1) = Returned x ->
  exists init, s = init ++ [x].
Proof.
  induction s as [|y init _] using rev_ind; intros H.
  - discriminate.
  - rewrite index_last in H. injection H as ->. now exists init.
Qed.

(** ** The trust store *)

Lemma AddFromString_appends (t : TrustedProxies) (s : string) (R : net.IPNet) :
  netFromIPOrCIDR s = inl R ->
  AddFromString t s = (mkTrustedProxies (trustedCIDRs t ++ [R]), None).
Proof. intros H. unfold AddFromString. now rewrite H. Qed.

Lemma AddFromString_ignores (t : TrustedProxies) (s : string) :
  net.ParseCIDR s = None -> net.ParseIP s = None ->
  AddFromString t s = (t, None).
Proof.
  intros Hc Hi. unfold AddFromString, netFromIPOrCIDR. now rewrite Hc, Hi.
Qed.

Lemma IsIPTrusted_first (t : TrustedProxies) (a : net.IP) (r : net.IPNet) :
  IsIPTrusted t a = Some r ->
  exists before after,
    trustedCIDRs t = before ++ r :: after
    /\ net.Contains r a = true
    /\ (forall r', In r' before -> net.Contains r' a = false).
Proof.
  unfold IsIPTrusted. induction (trustedCIDRs t) as [|c cidrs IH]; simpl.
  - discriminate.
  - destruct (net.Contains c a) eqn:Hc; intros H.
    + injection H as <-. exists [], cidrs. repeat split; [assumption|].
      intros r' [].
    + destruct (IH H) as (before & after & -> & Hr & Hb).
      exists (c :: before), after. repeat split; [assumption|].
      intros r' [<-|Hin]; [assumption|now apply Hb].
Qed.

Lemma IsIPTrusted_none (t : TrustedProxies) (a : net.IP) :
  (forall r, In r (trustedCIDRs t) -> net.Contains r a = false) ->
  IsIPTrusted t a = None.
Proof.
  unfold IsIPTrusted. induction (trustedCIDRs t) as [|c cidrs IH]; simpl; intros H.
  - reflexivity.
  - rewrite (H c) by now left. apply IH. intros r Hr. apply H. now right.
Qed.

Lemma IsIPTrusted_some (t : TrustedProxies) (a : net.IP) (R : net.IPNet) :
  In R (trustedCIDRs t) -> net.Contains R a = true ->
  exists r, IsIPTrusted t a = Some r /\ net.Contains r a = true.
Proof.
  unfold IsIPTrusted. induction (trustedCIDRs t) as [|c cidrs IH]; simpl.
  - intros [].
  - intros Hin HR. destruct (net.Contains c a) eqn:Hc.
    + now exists c.
    + destruct Hin as [->|Hin]; [congruence|now apply IH].
Qed.

(** ** Address families under [Contains] *)

Lemma To4_len (ip : net.IP) (x : list Z) :
  net.To4 ip = Some x -> List.length x = 4%nat.
Proof.
  unfold net.To4, net.IPv4len, net.IPv6len.
  destruct (net.len ip =? 4) eqn:E4.
  - intros ->. apply Z.eqb_eq in E4. simpl in E4. lia.
  - destruct (_ && _ && _ && _) eqn:C; [|discriminate].
    intros H. injection H as <-.
    do 3 (apply andb_prop in C as [C _]). apply Z.eqb_eq in C.
    destruct ip as [l|]; cbn [net.len net.elems] in *; [|lia].
    change (List.length (firstn 4 (skipn 12 l)) = 4%nat).
    rewrite length_firstn, length_skipn. lia.
Qed.

Lemma To4_of_4 (x : list Z) :
  List.length x = 4%nat -> net.To4 (Some x) = Some x.
Proof. intros H. unfold net.To4. simpl. now rewrite H. Qed.

Lemma normalized_idem (ip : net.IP) : normalized (normalized ip) = normalized ip.
Proof.
  unfold normalized at 2 3. destruct (net.To4 ip) as [x|] eqn:E.
  - unfold normalized. now rewrite (To4_of_4 x (To4_len _ _ E)).
  - unfold normalized. now rewrite E.
Qed.

Lemma Contains_normalized (n : net.IPNet) (ip : net.IP) :
  net.Contains n ip = net.Contains n (normalized ip).
Proof.
  unfold net.Contains. destruct (net.networkNumberAndMask n) as [nn m].
  change (match net.To4 (normalized ip) with
          | Some x => Some x
          | None => normalized ip
          end) with (normalized (normalized ip)).
  rewrite normalized_idem. reflexivity.
Qed.

(** The network number and mask that [Contains] compares with, for a stored
    range of each kind. *)
Lemma familyOfRange_V4 (n : net.IPNet) :
  familyOfRange n = Some V4 ->
  exists ip m,
    net.IPNet_IP n = Some ip /\ net.IPNet_Mask n = Some m
    /\ List.length ip = 4%nat /\ List.length m = 4%nat.
Proof.
  unfold familyOfRange.
  destruct ((net.len (net.IPNet_IP n) =? 4) && (net.len (net.IPNet_Mask n) =? 4))
    eqn:C.
  - intros _. apply andb_prop in C. destruct C as [C1 C2].
    apply Z.eqb_eq in C1. apply Z.eqb_eq in C2.
    destruct (net.IPNet_IP n) as [ip|]; [|cbn in C1; lia].
    destruct (net.IPNet_Mask n) as [m|]; [|cbn in C2; lia].
    exists ip, m. cbn [net.len] in *. repeat split; lia.
  - destruct ((net.len (net.IPNet_IP n) =? 16)
              && (net.len (net.IPNet_Mask n) =? 16)); intros H; discriminate H.
Qed.

Lemma familyOfRange_V6 (n : net.IPNet) :
  familyOfRange n = Some V6 ->
  exists ip m,
    net.IPNet_IP n = Some ip /\ net.IPNet_Mask n = Some m
    /\ List.length ip = 16%nat /\ List.length m = 16%nat.
Proof.
  unfold familyOfRange.
  destruct ((net.len (net.IPNet_IP n) =? 4) && (net.len (net.IPNet_Mask n) =? 4));
    [intros H; discriminate H|].
  destruct ((net.len (net.IPNet_IP n) =? 16) && (net.len (net.IPNet_Mask n) =? 16))
    eqn:C; [|intros H; discriminate H].
  intros _. apply andb_prop in C. destruct C as [C1 C2].
  apply Z.eqb_eq in C1. apply Z.eqb_eq in C2.
  destruct (net.IPNet_IP n) as [ip|]; [|cbn in C1; lia].
  destruct (net.IPNet_Mask n) as [m|]; [|cbn in C2; lia].
  exists ip, m. cbn [net.len] in *. repeat split; lia.
Qed.

Lemma number_of_V4 (n : net.IPNet) :
  familyOfRange n = Some V4 ->
  net.len (fst (net.networkNumberAndMask n)) = 4.
Proof.
  intros H. destruct (familyOfRange_V4 n H) as (ip & m & Hi & Hm & Hli & Hlm).
  unfold net.networkNumberAndMask. rewrite Hi, Hm, (To4_of_4 ip Hli).
  unfold net.IPv4len, net.IPv6len.
  repeat (cbn; rewrite ?Hli, ?Hlm). reflexivity.
Qed.

Lemma number_of_V6 (n : net.IPNet) :
  familyOfRange n = Some V6 -> net.To4 (net.IPNet_IP n) = None ->
  net.len (fst (net.networkNumberAndMask n)) = 16.
Proof.
  intros H E. destruct (familyOfRange_V6 n H) as (ip & m & Hi & Hm & Hli & Hlm).
  unfold net.networkNumberAndMask. rewrite E, Hi, Hm.
  unfold net.IPv4len, net.IPv6len.
  repeat (cbn; rewrite ?Hli, ?Hlm). reflexivity.
Qed.

Lemma number_of_mapped (n : net.IPNet) (x : list Z) :
  familyOfRange n = Some V6 -> net.To4 (net.IPNet_IP n) = Some x ->
  net.networkNumberAndMask n
  = (Some x, Some (skipn 12 (net.elems (net.IPNet_Mask n))))
  /\ net.networkNumberAndMask
       (net.mkIPNet (Some x) (Some (skipn 12 (net.elems (net.IPNet_Mask n)))))
     = (Some x, Some (skipn 12 (net.elems (net.IPNet_Mask n)))).
Proof.
  intros H E. destruct (familyOfRange_V6 n H) as (ip & m & Hi & Hm & Hli & Hlm).
  pose proof (To4_len _ _ E) as Hx.
  assert (Hs : List.length (skipn 12 m) = 4%nat) by (rewrite length_skipn; lia).
  split.
  - unfold net.networkNumberAndMask. rewrite E, Hm.
    unfold net.IPv4len, net.IPv6len.
    repeat (cbn [net.len net.elems]; rewrite ?Hx, ?Hlm). reflexivity.
  - unfold net.networkNumberAndMask. cbn [net.IPNet_IP net.IPNet_Mask].
    rewrite Hm, (To4_of_4 x Hx). cbn [net.elems].
    unfold net.IPv4len, net.IPv6len.
    repeat (cbn [net.len net.elems]; rewrite ?Hx, ?Hs). reflexivity.
Qed.

Lemma Contains_len (n : net.IPNet) (ip : net.IP) :
  net.Contains n ip = true ->
  net.len (normalized ip) = net.len (fst (net.networkNumberAndMask n)).
Proof.
  unfold net.Contains. destruct (net.networkNumberAndMask n) as [nn m].
  change (match net.To4 ip with Some x => Some x | None => ip end)
    with (normalized ip).
  destruct (net.len (normalized ip) =? net.len nn) eqn:E; [|discriminate].
  intros _. now apply Z.eqb_eq in E.
Qed.

Lemma normalized_len (ip : net.IP) :
  (familyOfIP ip = Some V4 -> net.len (normalized ip) = 4)
  /\ (familyOfIP ip = Some V6 -> net.len (normalized ip) = 16).
Proof.
  unfold familyOfIP, normalized.
  destruct (net.To4 ip) as [x|] eqn:E4; simpl.
  - split; [intros _|discriminate]. now rewrite (To4_len _ _ E4).
  - split; [destruct (net.len ip =? net.IPv6len); discriminate|].
    destruct (net.len ip =? net.IPv6len) eqn:E16; [|discriminate].
    intros _. now apply Z.eqb_eq in E16.
Qed.

(** An IPv6 address is in no range of 32-bit addresses, nor in a range whose
    base address is IPv4-mapped; an IPv4 address is in no range of 128-bit
    addresses whose base address is not IPv4-mapped. *)
Lemma Contains_across (n : net.IPNet) (ip : net.IP) :
  (familyOfIP ip = Some V6 -> familyOfRange n = Some V4 ->
   net.Contains n ip = false)
  /\ (familyOfIP ip = Some V4 -> familyOfRange n = Some V6 ->
      net.To4 (net.IPNet_IP n) = None -> net.Contains n ip = false)
  /\ (familyOfIP ip = Some V6 -> familyOfRange n = Some V6 ->
      net.To4 (net.IPNet_IP n) <> None -> net.Contains n ip = false).
Proof.
  destruct (normalized_len ip) as [I4 I6].
  split; [|split].
  - intros Hi Hn. destruct (net.Contains n ip) eqn:C; [|reflexivity].
    apply Contains_len in C. rewrite (I6 Hi), (number_of_V4 n Hn) in C. lia.
  - intros Hi Hn E. destruct (net.Contains n ip) eqn:C; [|reflexivity].
    apply Contains_len in C. rewrite (I4 Hi), (number_of_V6 n Hn E) in C. lia.
  - intros Hi Hn E. destruct (net.To4 (net.IPNet_IP n)) as [x|] eqn:Ex;
      [|contradiction].
    destruct (net.Contains n ip) eqn:C; [|reflexivity].
    apply Contains_len in C.
    rewrite (I6 Hi), (proj1 (number_of_mapped n x Hn Ex)) in C.
    cbn [fst net.len] in C. rewrite (To4_len _ _ Ex) in C. lia.
Qed.

(** A range of 128-bit addresses whose base address is IPv4-mapped matches
    as the range of 32-bit addresses made of its last four bytes. *)
Lemma Contains_mapped (n : net.IPNet) (x : list Z) (ip : net.IP) :
  familyOfRange n = Some V6 -> net.To4 (net.IPNet_IP n) = Some x ->
  net.Contains n ip
  = net.Contains
      (net.mkIPNet (Some x) (Some (skipn 12 (net.elems (net.IPNet_Mask n))))) ip.
Proof.
  intros Hn Ex. destruct (number_of_mapped n x Hn Ex) as [E1 E2].
  unfold net.Contains. now rewrite E1, E2.
Qed.

Lemma netFromIPOrCIDR_bare (s : string) (b : list Z) :
  net.ParseCIDR s = None -> net.ParseIP s = Some b ->
  let ip := normalized (Some b) in
  netFromIPOrCIDR s
  = inl (net.mkIPNet ip (net.CIDRMask (8 * net.len ip) (8 * net.len ip))).
Proof.
  intros Hc Hi. unfold netFromIPOrCIDR, normalized. rewrite Hc, Hi.
  cbn [net.isNil]. destruct (net.To4 (Some b)); reflexivity.
Qed.

(** ** Splitting and trimming the header *)

Lemma Split_nonempty (s : string) (sep : ascii) : strings.Split s sep <> [].
Proof.
  destruct s as [|c s]; simpl; [discriminate|].
  destruct (Ascii.eqb c sep); [discriminate|].
  destruct (strings.Split s sep); discriminate.
Qed.

Lemma Split_no_sep (s : string) (sep : ascii) :
  Forall (fun c => c <> sep) (list_ascii_of_string s) ->
  strings.Split s sep = [s].
Proof.
  induction s as [|c s IH]; simpl; intros H; [reflexivity|].
  inversion H as [|? ? Hc Hs]; subst.
  apply Ascii.eqb_neq in Hc. rewrite Hc, (IH Hs). reflexivity.
Qed.

Lemma bytes_of_string_app (a b : string) :
  bytes_of_string (a ++ b)%string = bytes_of_string a ++ bytes_of_string b.
Proof.
  unfold bytes_of_string. induction a as [|c a IH]; simpl; [reflexivity|].
  now rewrite IH.
Qed.

Lemma string_of_bytes_of_string (s : string) :
  string_of_bytes (bytes_of_string s) = s.
Proof.
  unfold string_of_bytes, bytes_of_string. rewrite map_map.
  rewrite (map_ext _ (fun c => c)).
  - rewrite map_id. apply string_of_list_ascii_of_string.
  - intros c. unfold ascii_of_byte, byte_of_ascii.
    now rewrite N2Z.id, ascii_N_embedding.
Qed.

Lemma bytes_of_string_nil (s : string) : bytes_of_string s = [] -> s = EmptyString.
Proof. destruct s; [reflexivity|discriminate]. Qed.

(** One rune of white space is stripped at the front, and at the back. *)
Lemma trimLeft_rune (w rest : list Z) :
  In w whiteRunes -> strings.trimLeft (w ++ rest) = strings.trimLeft rest.
Proof.
  intros H. unfold whiteRunes in H. simpl in H.
  repeat (destruct H as [<-|H]; [reflexivity|]). contradiction.
Qed.

Lemma trimLeftRev_rune (w rest : list Z) :
  In w whiteRunes -> strings.trimLeftRev (rev w ++ rest) = strings.trimLeftRev rest.
Proof.
  intros H. unfold whiteRunes in H. simpl in H.
  repeat (destruct H as [<-|H]; [reflexivity|]). contradiction.
Qed.

Lemma trimLeft_white (runes : list (list Z)) (rest : list Z) :
  Forall (fun w => In w whiteRunes) runes ->
  strings.trimLeft (List.concat runes ++ rest) = strings.trimLeft rest.
Proof.
  induction 1 as [|w runes Hw _ IH]; [reflexivity|].
  cbn [List.concat]. rewrite <- app_assoc, (trimLeft_rune _ _ Hw). exact IH.
Qed.

Lemma trimLeftRev_white (runes : list (list Z)) :
  Forall (fun w => In w whiteRunes) runes ->
  forall rest,
    strings.trimLeftRev (rev (List.concat runes) ++ rest) = strings.trimLeftRev rest.
Proof.
  induction 1 as [|w runes Hw _ IH]; intros rest; [reflexivity|].
  cbn [List.concat]. rewrite rev_app_distr, <- app_assoc, IH.
  exact (trimLeftRev_rune _ _ Hw).
Qed.

Lemma solid_eqb (c k : Z) : solid c -> (k <= 32 \/ 127 <= k) -> (c =? k) = false.
Proof. unfold solid. intros H Hk. apply Z.eqb_neq. lia. Qed.

Lemma trimLeft_solid (c : Z) (rest : list Z) :
  solid c -> strings.trimLeft (c :: rest) = c :: rest.
Proof.
  intros H. cbn [strings.trimLeft].
  unfold strings.asciiSpace, strings.space2, strings.space3.
  rewrite !(solid_eqb c) by (assumption || lia).
  destruct rest as [|c2 [|c3 rest]]; reflexivity.
Qed.

Lemma trimLeftRev_solid (c : Z) (rest : list Z) :
  solid c -> strings.trimLeftRev (c :: rest) = c :: rest.
Proof.
  intros H. cbn [strings.trimLeftRev].
  unfold strings.asciiSpace, strings.space2, strings.space3.
  rewrite !(solid_eqb c) by (assumption || lia).
  replace (128 <=? c) with false by (symmetry; apply Z.leb_gt; unfold solid in H; lia).
  destruct rest as [|c2 [|c3 rest]]; cbn [orb andb]; rewrite ?andb_false_r;
    reflexivity.
Qed.

(** [strings.TrimSpace] takes the white space off both ends of a text, and
    nothing else. *)
Lemma TrimSpace_padded (l c r : string) :
  white l -> white r -> tight c ->
  strings.TrimSpace (l ++ c ++ r)%string = c.
Proof.
  intros (rl & Fl & El) (rr & Fr & Er) [Hhd Hlast].
  unfold strings.TrimSpace. rewrite !bytes_of_string_app, El, Er.
  rewrite (trimLeft_white rl _ Fl).
  destruct (bytes_of_string c) as [|b bs] eqn:Ec.
  - apply bytes_of_string_nil in Ec. subst c. cbn [app].
    rewrite <- (app_nil_r (List.concat rr)), (trimLeft_white rr [] Fr). reflexivity.
  - cbn [hd] in Hhd. cbn [app]. rewrite (trimLeft_solid b _ Hhd).
    unfold strings.trimRight.
    change (b :: bs ++ List.concat rr) with ((b :: bs) ++ List.concat rr).
    rewrite rev_app_distr, (trimLeftRev_white rr Fr).
    destruct (exists_last (l := b :: bs)) as (init & z & E); [discriminate|].
    rewrite E in *. rewrite last_last in Hlast.
    rewrite rev_app_distr. cbn [rev app]. rewrite (trimLeftRev_solid z _ Hlast).
    cbn [rev]. rewrite rev_involutive, <- Ec.
    apply string_of_bytes_of_string.
Qed.

Lemma TrimSpace_white (s : string) : white s -> strings.TrimSpace s = EmptyString.
Proof.
  intros (runes & F & E). unfold strings.TrimSpace. rewrite E.
  rewrite <- (app_nil_r (List.concat runes)), (trimLeft_white runes [] F).
  reflexivity.
Qed.

Lemma noComma_chars (s : string) :
  noComma s -> Forall (fun c => c <> ","%char) (list_ascii_of_string s).
Proof.
  unfold noComma, bytes_of_string. intros H. apply Forall_forall.
  intros c Hc ->. apply H.
  change 44 with (byte_of_ascii ","%char). now apply in_map.
Qed.

Lemma white_noComma (s : string) : white s -> noComma s.
Proof.
  intros (runes & F & E). unfold noComma. rewrite E. clear E.
  induction F as [|w runes Hw _ IH]; cbn [List.concat]; [intros []|].
  intros H. apply in_app_or in H. destruct H as [H|H]; [|now apply IH].
  unfold whiteRunes in Hw. simpl in Hw.
  repeat (destruct Hw as [<-|Hw];
          [simpl in H; repeat (destruct H as [H|H]; [discriminate H|]);
           contradiction|]).
  contradiction.
Qed.

Lemma noComma_app (a b : string) :
  noComma a -> noComma b -> noComma (a ++ b)%string.
Proof.
  unfold noComma. rewrite bytes_of_string_app. intros Ha Hb H.
  apply in_app_or in H. tauto.
Qed.

Lemma padded_noComma (p : part) : goodPart p -> noComma (padded p).
Proof.
  intros (Hl & Hr & _ & Hc). unfold padded.
  apply noComma_app; [now apply white_noComma|].
  apply noComma_app; [assumption|now apply white_noComma].
Qed.

Lemma headerToIPs_single_blank (header seg : string) :
  strings.Split header ","%char = [seg] ->
  strings.TrimSpace seg = EmptyString ->
  headerToIPs header = [].
Proof.
  intros Hs Ht. unfold headerToIPs. rewrite Hs. simpl.
  rewrite Ht. reflexivity.
Qed.

Lemma headerToIPs_entries (header : string) :
  (forall seg, strings.Split header ","%char = [seg] ->
               strings.TrimSpace seg <> EmptyString) ->
  headerToIPs header
  = map (fun seg => net.ParseIP (strings.TrimSpace seg)) (strings.Split header ","%char).
Proof.
  intros H. unfold headerToIPs.
  destruct (strings.Split header ","%char) as [|seg [|seg' segs]] eqn:Hs;
    try reflexivity.
  specialize (H seg eq_refl). apply String.eqb_neq in H.
  cbn [List.length Nat.eqb nth andb]. rewrite H. reflexivity.
Qed.

Lemma Split_segment (seg rest : string) (sep : ascii) :
  Forall (fun c => c <> sep) (list_ascii_of_string seg) ->
  strings.Split (seg ++ String sep rest)%string sep
  = seg :: strings.Split rest sep.
Proof.
  induction seg as [|c seg IH]; simpl; intros H.
  - now rewrite Ascii.eqb_refl.
  - inversion H as [|? ? Hc Hs]; subst.
    apply Ascii.eqb_neq in Hc. rewrite Hc, (IH Hs). reflexivity.
Qed.

(** Splitting undoes joining: the segments put together with commas are
    found again by [strings.Split]. *)
Lemma Split_join (segs : list string) :
  segs <> [] -> Forall noComma segs ->
  strings.Split (joinCommas segs) ","%char = segs.
Proof.
  induction segs as [|seg rest IH]; intros Hne H; [contradiction|].
  inversion H as [|? ? Hseg Hrest]; subst.
  destruct rest as [|seg' rest'].
  - apply Split_no_sep. now apply noComma_chars.
  - change (joinCommas (seg :: seg' :: rest'))
      with (seg ++ String "," (joinCommas (seg' :: rest')))%string.
    rewrite Split_segment by now apply noComma_chars.
    rewrite IH; [reflexivity|discriminate|assumption].
Qed.

(** The entries of a header written as padded segments: each is what its
    segment parses to once the white space around it is taken off. *)
Lemma headerToIPs_padded (parts : list part) :
  parts <> [] -> Forall goodPart parts ->
  (forall p, parts = [p] -> core p <> EmptyString) ->
  headerToIPs (joinCommas (map padded parts))
  = map (fun p => net.ParseIP (core p)) parts.
Proof.
  intros Hne Hgood Hcore.
  assert (Hs : strings.Split (joinCommas (map padded parts)) ","%char
               = map padded parts).
  { apply Split_join.
    - destruct parts; [contradiction|discriminate].
    - apply Forall_map. revert Hgood. apply Forall_impl.
      exact padded_noComma. }
  assert (Ht : forall p, In p parts -> strings.TrimSpace (padded p) = core p).
  { intros p Hp. rewrite Forall_forall in Hgood.
    destruct (Hgood p Hp) as (Hl & Hr & Hc & _).
    now apply TrimSpace_padded. }
  rewrite headerToIPs_entries.
  - rewrite Hs, map_map. apply map_ext_in. intros p Hp. now rewrite (Ht p Hp).
  - rewrite Hs. intros seg Hseg.
    destruct parts as [|p [|p' parts']]; try discriminate.
    injection Hseg as <-. rewrite (Ht p (or_introl eq_refl)).
    now apply Hcore.
Qed.

(** ** The chain that the walk visits *)

Lemma chain_reversed (remoteAddr : net.IP) (ips pre suf : list net.IP) (x : net.IP) :
  ips ++ [remoteAddr] = pre ++ x :: suf ->
  remoteAddr :: rev ips = rev suf ++ x :: rev pre.
Proof.
  intros H. apply (f_equal (@rev net.IP)) in H.
  rewrite rev_app_distr in H. simpl in H. rewrite H.
  rewrite rev_app_distr. simpl. now rewrite <- app_assoc.
Qed.

Lemma Forall_passed_rev (t : TrustedProxies) (l : list net.IP) :
  (forall ip, In ip l -> passed t ip) -> Forall (passed t) (rev l).
Proof.
  intros H. apply Forall_forall. intros ip Hin. apply H. now apply in_rev.
Qed.

Lemma passed_trusted (t : TrustedProxies) (l : list net.IP) :
  Forall (passed t) l -> forall ip, In ip l -> IsIPTrusted t ip <> None.
Proof. intros H ip Hin. rewrite Forall_forall in H. now apply H. Qed.

(** * The claims *)

(** C1. What the code does where the claim expects the walk to end at index
    0: when the peer and every entry of the header are addresses that the
    store trusts (the empty header with a trusted peer included), the loop has
    no test for the index moving before 0, reads [ips[-1]] and panics with an
    index out of range; neither a chain nor a deduced client is returned. *)
Theorem C1_full_exhaustion_panics
    (t : TrustedProxies) (remoteAddr : net.IP) (header : string) :
  (forall ip, In ip (headerToIPs header ++ [remoteAddr]) -> passed t ip) ->
  let n := Z.of_nat (List.length (headerToIPs header ++ [remoteAddr])) in
  filterOutIPsFromUntrustedSources t remoteAddr header
    = Panicked (IndexOutOfRange (-1) n)
  /\ DeduceClientIP t remoteAddr header = Panicked (IndexOutOfRange (-1) n).
Proof.
  intros H n.
  assert (E : filterOutIPsFromUntrustedSources t remoteAddr header
              = Panicked (IndexOutOfRange (-1) n)).
  { rewrite filterOut_scan. apply scan_exhausted.
    change (remoteAddr :: rev (headerToIPs header))
      with (rev [remoteAddr] ++ rev (headerToIPs header)).
    rewrite <- rev_app_distr. now apply Forall_passed_rev. }
  split; [exact E|]. unfold DeduceClientIP. now rewrite E.
Qed.

Lemma C1_full_exhaustion_panics_witness :
  (forall ip,
      In ip (headerToIPs "20.20.20.20" ++ [net.ParseIP "10.10.10.10"]) ->
      passed (trusting ["10.10.10.10"%string; "20.20.20.20"%string]) ip)
  /\ DeduceClientIP (trusting ["10.10.10.10"%string; "20.20.20.20"%string])
       (net.ParseIP "10.10.10.10") "20.20.20.20"
     = Panicked (IndexOutOfRange (-1) 2)
  /\ DeduceClientIP (trusting ["10.10.10.10"%string])
       (net.ParseIP "10.10.10.10") ""
     = Panicked (IndexOutOfRange (-1) 1).
Proof.
  assert (H2 : forall ip,
             In ip (headerToIPs "20.20.20.20" ++ [net.ParseIP "10.10.10.10"]) ->
             passed (trusting ["10.10.10.10"%string; "20.20.20.20"%string]) ip).
  { intros ip [<-|[<-|[]]]; (split; [reflexivity|vm_compute; discriminate]). }
  assert (H1 : forall ip,
             In ip (headerToIPs "" ++ [net.ParseIP "10.10.10.10"]) ->
             passed (trusting ["10.10.10.10"%string]) ip).
  { intros ip [<-|[]]; (split; [reflexivity|vm_compute; discriminate]). }
  split; [exact H2|]. split.
  - exact (proj2 (C1_full_exhaustion_panics _ _ _ H2)).
  - exact (proj2 (C1_full_exhaustion_panics _ _ _ H1)).
Defined.

(** C2, as the code has it. A nil peer is met by the same test as an
    unparseable header entry, [ip == nil || *ip == nil], at the first
    iteration: the walk stops at once, whatever the store and the header
    hold, and since the test comes before the append the peer is not put in
    the result: the returned chain is empty. *)
Theorem C2_nil_peer_gives_empty_chain (t : TrustedProxies) (header : string) :
  filterOutIPsFromUntrustedSources t None header = Returned [].
Proof.
  rewrite filterOut_scan.
  apply (scan_stop_nil t _ [] (rev (headerToIPs header)) [] None);
    [constructor|reflexivity].
Qed.

(** C2 as stated fails: with a nil peer the chain is not the one-element
    chain holding the peer slot, and no deduced client is returned. *)
Lemma C2_nil_peer_counterexample :
  ~ (filterOutIPsFromUntrustedSources New None "" = Returned [None]
     /\ DeduceClientIP New None "" = Returned None).
Proof. intros [H _]. vm_compute in H. discriminate. Qed.

(** C3, as the code has it. The walk visits the chain from the peer
    backward. Past entries that are trusted addresses, (a) a nil (unparseable)
    entry ends the walk before the append: it is left out, and the returned
    chain ends with the entry visited before it; (b) an address that the
    store does not trust is appended and then ends the walk: it is the last
    element of the returned chain. *)
Theorem C3_walk_stop (t : TrustedProxies) (remoteAddr : net.IP) (header : string)
    (pre suf : list net.IP) (x : net.IP) :
  headerToIPs header ++ [remoteAddr] = pre ++ x :: suf ->
  (forall ip, In ip suf -> passed t ip) ->
  (net.isNil x = true ->
   filterOutIPsFromUntrustedSources t remoteAddr header = Returned (rev suf))
  /\ (net.isNil x = false -> IsIPTrusted t x = None ->
      filterOutIPsFromUntrustedSources t remoteAddr header
      = Returned (rev suf ++ [x])).
Proof.
  intros Hips Hsuf. rewrite filterOut_scan, (chain_reversed _ _ _ _ _ Hips).
  apply Forall_passed_rev in Hsuf. split.
  - intros Hx. now rewrite scan_stop_nil.
  - intros Hx Hu. now rewrite scan_stop_untrusted.
Qed.

Lemma C3_walk_stop_witness :
  filterOutIPsFromUntrustedSources (trusting ["10.10.10.10"%string])
    (net.ParseIP "10.10.10.10") "ugh"
  = Returned [net.ParseIP "10.10.10.10"]
  /\ filterOutIPsFromUntrustedSources
       (trusting ["10.10.10.10"%string; "30.30.30.30"%string])
       (net.ParseIP "10.10.10.10") "30.30.30.30, 20.20.20.20"
     = Returned [net.ParseIP "10.10.10.10"; net.ParseIP "20.20.20.20"].
Proof.
  split.
  - refine (proj1 (C3_walk_stop (trusting ["10.10.10.10"%string])
                     (net.ParseIP "10.10.10.10") "ugh"
                     [] [net.ParseIP "10.10.10.10"] None eq_refl _) eq_refl).
    intros ip [<-|[]]; (split; [reflexivity|vm_compute; discriminate]).
  - refine (proj2 (C3_walk_stop
                     (trusting ["10.10.10.10"%string; "30.30.30.30"%string])
                     (net.ParseIP "10.10.10.10") "30.30.30.30, 20.20.20.20"
                     [net.ParseIP "30.30.30.30"] [net.ParseIP "10.10.10.10"]
                     (net.ParseIP "20.20.20.20") eq_refl _) eq_refl eq_refl).
    intros ip [<-|[]]; (split; [reflexivity|vm_compute; discriminate]).
Defined.

(** C3 as stated fails: behind a trusted peer the unparseable entry "ugh"
    ends the walk, but the returned chain does not end with a nil entry. *)
Lemma C3_unparseable_counterexample :
  ~ (exists init,
        filterOutIPsFromUntrustedSources (trusting ["10.10.10.10"%string])
          (net.ParseIP "10.10.10.10") "ugh"
        = Returned (init ++ [None])).
Proof.
  intros [init H]. vm_compute in H. injection H as H.
  destruct init as [|a [|b init]]; discriminate.
Qed.

(** C4. What the code does with an empty header and a peer that is a real
    address. The chain is [[peer]]. When the store does not trust the peer,
    [[peer]] is returned and the peer is the deduced client, as claimed. When
    the store trusts the peer, the loop moves to index -1 and panics: the
    claim's "regardless of the trust status" does not hold of the code. *)
Theorem C4_empty_header (t : TrustedProxies) (remoteAddr : net.IP) :
  net.isNil remoteAddr = false ->
  headerToIPs "" ++ [remoteAddr] = [remoteAddr]
  /\ (IsIPTrusted t remoteAddr = None ->
      filterOutIPsFromUntrustedSources t remoteAddr "" = Returned [remoteAddr]
      /\ DeduceClientIP t remoteAddr "" = Returned remoteAddr)
  /\ (IsIPTrusted t remoteAddr <> None ->
      filterOutIPsFromUntrustedSources t remoteAddr ""
        = Panicked (IndexOutOfRange (-1) 1)
      /\ DeduceClientIP t remoteAddr "" = Panicked (IndexOutOfRange (-1) 1)).
Proof.
  intros Hnil. split; [reflexivity|].
  unfold DeduceClientIP. rewrite filterOut_scan.
  change (headerToIPs "") with (@nil net.IP). cbn [rev app List.length scan].
  rewrite Hnil. split; intros H.
  - apply isSome_untrusted in H. rewrite H. split; reflexivity.
  - apply isSome_trusted in H. rewrite H. split; reflexivity.
Qed.

Lemma C4_empty_header_witness :
  DeduceClientIP (trusting []) (net.ParseIP "10.10.10.10") ""
    = Returned (net.ParseIP "10.10.10.10")
  /\ DeduceClientIP (trusting ["10.10.10.10"%string]) (net.ParseIP "10.10.10.10") ""
    = Panicked (IndexOutOfRange (-1) 1).
Proof.
  split.
  - refine (proj2 (proj1 (proj2 (C4_empty_header (trusting [])
                                   (net.ParseIP "10.10.10.10") eq_refl)) _)).
    reflexivity.
  - refine (proj2 (proj2 (proj2 (C4_empty_header (trusting ["10.10.10.10"%string])
                                   (net.ParseIP "10.10.10.10") eq_refl)) _)).
    vm_compute. discriminate.
Defined.

(** C5. [AddFromString] appends the network that the specification parses
    to; after it, [IsIPTrusted] on an address of that network returns a
    network that contains the address. [IsIPTrusted] returns nil for an
    address that no stored network contains. The network it returns is the
    first one, in the order of addition, that contains the address. *)
Theorem C5_IsIPTrusted_first_match (t : TrustedProxies) (a : net.IP) :
  (forall s R,
      netFromIPOrCIDR s = inl R -> net.Contains R a = true ->
      trustedCIDRs (fst (AddFromString t s)) = trustedCIDRs t ++ [R]
      /\ exists r, IsIPTrusted (fst (AddFromString t s)) a = Some r
                   /\ net.Contains r a = true)
  /\ ((forall r, In r (trustedCIDRs t) -> net.Contains r a = false) ->
      IsIPTrusted t a = None)
  /\ (forall r,
         IsIPTrusted t a = Some r ->
         exists before after,
           trustedCIDRs t = before ++ r :: after
           /\ net.Contains r a = true
           /\ (forall r', In r' before -> net.Contains r' a = false)).
Proof.
  split; [|split].
  - intros s R Hs HR. rewrite (AddFromString_appends t s R Hs). simpl.
    split; [reflexivity|].
    apply (IsIPTrusted_some _ a R); [|assumption].
    simpl. apply in_or_app. right. now left.
  - apply IsIPTrusted_none.
  - apply IsIPTrusted_first.
Qed.

Lemma C5_IsIPTrusted_first_match_witness :
  (exists r,
      IsIPTrusted (fst (AddFromString (trusting ["192.168.0.0/16"%string])
                          "192.168.10.10/24"))
        (net.ParseIP "192.168.10.2") = Some r
      /\ net.Contains r (net.ParseIP "192.168.10.2") = true)
  /\ IsIPTrusted (trusting ["192.168.10.10/24"%string]) (net.ParseIP "192.168.11.2")
     = None
  /\ (exists before after,
         trustedCIDRs (trusting ["10.0.0.0/8"%string; "192.168.0.0/16"%string;
                                 "192.168.10.10/24"%string])
         = before ++ net.mkIPNet (Some [192; 168; 0; 0]) (Some [255; 255; 0; 0])
                     :: after
         /\ (forall r', In r' before ->
                        net.Contains r' (net.ParseIP "192.168.10.2") = false)).
Proof.
  split; [|split].
  - refine (proj2 (proj1 (C5_IsIPTrusted_first_match
                            (trusting ["192.168.0.0/16"%string])
                            (net.ParseIP "192.168.10.2"))
                     "192.168.10.10/24"%string _ eq_refl eq_refl)).
  - refine (proj1 (proj2 (C5_IsIPTrusted_first_match
                            (trusting ["192.168.10.10/24"%string])
                            (net.ParseIP "192.168.11.2"))) _).
    intros r [<-|[]]. reflexivity.
  - destruct (proj2 (proj2 (C5_IsIPTrusted_first_match
                              (trusting ["10.0.0.0/8"%string; "192.168.0.0/16"%string;
                                         "192.168.10.10/24"%string])
                              (net.ParseIP "192.168.10.2")))
                _ eq_refl) as (before & after & E & _ & Hb).
    exists before, after. split; assumption.
Defined.

(** C6, as the code has it. Families are compared on normalised forms, and
    the normalisation is made by [Contains] at the time of the query, on the
    address asked about and on the base address of the range:
    - an IPv6 address is in no range of 32-bit addresses;
    - an IPv4 address, also when written in the IPv4-mapped IPv6 form, is in
      no range of 128-bit addresses whose base address lies outside
      ::ffff:0:0/96;
    - a range of 128-bit addresses whose base address is IPv4-mapped (such as
      "::ffff:10.0.0.0/104", which is stored as written, with a 16-byte
      address and a 16-byte mask) matches as the range of 32-bit addresses
      made of the last four bytes of its address and mask: it contains IPv4
      addresses and no IPv6 address.
    At storage [netFromIPOrCIDR] brings a bare address to its 4-byte form; a
    specification in address/prefix-length form is stored as [net.ParseCIDR]
    returns it. *)
Theorem C6_family_matching (t : TrustedProxies) (ip : net.IP) :
  (forall r, familyOfIP ip = Some V6 -> familyOfRange r = Some V4 ->
             net.Contains r ip = false)
  /\ (forall r, familyOfIP ip = Some V4 -> familyOfRange r = Some V6 ->
                net.To4 (net.IPNet_IP r) = None -> net.Contains r ip = false)
  /\ (forall r x,
         familyOfRange r = Some V6 -> net.To4 (net.IPNet_IP r) = Some x ->
         net.Contains r ip
         = net.Contains
             (net.mkIPNet (Some x) (Some (skipn 12 (net.elems (net.IPNet_Mask r)))))
             ip
         /\ familyOfRange
              (net.mkIPNet (Some x) (Some (skipn 12 (net.elems (net.IPNet_Mask r)))))
            = Some V4
         /\ (familyOfIP ip = Some V6 -> net.Contains r ip = false))
  /\ (forall r, IsIPTrusted t ip = Some r ->
                ~ (familyOfIP ip = Some V6 /\ familyOfRange r = Some V4)
                /\ ~ (familyOfIP ip = Some V4 /\ familyOfRange r = Some V6
                      /\ net.To4 (net.IPNet_IP r) = None)
                /\ ~ (familyOfIP ip = Some V6 /\ familyOfRange r = Some V6
                      /\ net.To4 (net.IPNet_IP r) <> None))
  /\ (forall r, net.Contains r ip = net.Contains r (normalized ip))
  /\ (forall s b,
         net.ParseCIDR s = None -> net.ParseIP s = Some b ->
         exists mask,
           netFromIPOrCIDR s = inl (net.mkIPNet (normalized (Some b)) mask))
  /\ (forall s a r,
         net.ParseCIDR s = Some (a, r) -> netFromIPOrCIDR s = inl r).
Proof.
  split; [|split; [|split; [|split; [|split; [|split]]]]].
  - intros r. apply (Contains_across r ip).
  - intros r. apply (Contains_across r ip).
  - intros r x Hr Ex. split; [exact (Contains_mapped r x ip Hr Ex)|]. split.
    + destruct (familyOfRange_V6 r Hr) as (a & m & _ & Hm & _ & Hlm).
      rewrite Hm. unfold familyOfRange. cbn [net.IPNet_IP net.IPNet_Mask net.len net.elems].
      rewrite (To4_len _ _ Ex), length_skipn, Hlm. reflexivity.
    + intros Hi. apply (Contains_across r ip); [assumption|assumption|].
      rewrite Ex. discriminate.
  - intros r Hr.
    destruct (IsIPTrusted_first _ _ _ Hr) as (_ & _ & _ & Hc & _).
    destruct (Contains_across r ip) as (H1 & H2 & H3).
    split; [|split].
    + intros [Hi Hn]. rewrite (H1 Hi Hn) in Hc. discriminate.
    + intros (Hi & Hn & E). rewrite (H2 Hi Hn E) in Hc. discriminate.
    + intros (Hi & Hn & E). rewrite (H3 Hi Hn E) in Hc. discriminate.
  - intros r. apply Contains_normalized.
  - intros s b Hc Hi. eexists. apply (netFromIPOrCIDR_bare s b Hc Hi).
  - intros s a r Hc. unfold netFromIPOrCIDR. now rewrite Hc.
Qed.

Lemma C6_family_matching_witness :
  net.Contains (net.mkIPNet (Some [10; 0; 0; 0]) (Some [255; 0; 0; 0]))
    (net.ParseIP "2001:db8::1") = false
  /\ net.Contains (net.mkIPNet (Some (repeat 0 16)) (Some (repeat 0 16)))
       (net.ParseIP "::ffff:10.1.2.3") = false
  /\ net.Contains
       (net.mkIPNet (Some [0; 0; 0; 0; 0; 0; 0; 0; 0; 0; 255; 255; 10; 0; 0; 0])
          (Some [255; 255; 255; 255; 255; 255; 255; 255; 255; 255; 255; 255;
                 255; 0; 0; 0]))
       (net.ParseIP "10.1.2.3")
     = net.Contains (net.mkIPNet (Some [10; 0; 0; 0]) (Some [255; 0; 0; 0]))
         (net.ParseIP "10.1.2.3")
  /\ netFromIPOrCIDR "::ffff:10.0.0.0/104"
     = inl (net.mkIPNet (Some [0; 0; 0; 0; 0; 0; 0; 0; 0; 0; 255; 255; 10; 0; 0; 0])
              (Some [255; 255; 255; 255; 255; 255; 255; 255; 255; 255; 255; 255;
                     255; 0; 0; 0])).
Proof.
  split; [|split; [|split]].
  - exact (proj1 (C6_family_matching New (net.ParseIP "2001:db8::1"))
             (net.mkIPNet (Some [10; 0; 0; 0]) (Some [255; 0; 0; 0]))
             eq_refl eq_refl).
  - exact (proj1 (proj2 (C6_family_matching New (net.ParseIP "::ffff:10.1.2.3")))
             (net.mkIPNet (Some (repeat 0 16)) (Some (repeat 0 16)))
             eq_refl eq_refl eq_refl).
  - exact (proj1 (proj1 (proj2 (proj2 (C6_family_matching New
                                          (net.ParseIP "10.1.2.3"))))
                    (net.mkIPNet
                       (Some [0; 0; 0; 0; 0; 0; 0; 0; 0; 0; 255; 255; 10; 0; 0; 0])
                       (Some [255; 255; 255; 255; 255; 255; 255; 255; 255; 255;
                              255; 255; 255; 0; 0; 0]))
                    [10; 0; 0; 0] eq_refl eq_refl)).
  - refine (proj2 (proj2 (proj2 (proj2 (proj2 (proj2
              (C6_family_matching New None))))))
              "::ffff:10.0.0.0/104"%string _ _ eq_refl).
Defined.

(** C6 as stated fails: "::ffff:10.0.0.0/104" is stored as a range of
    128-bit addresses, with a 16-byte address and a 16-byte mask, and the
    IPv4 address 10.1.2.3 is reported as contained in it. *)
Lemma C6_mapped_range_counterexample :
  ~ (forall r,
        In r (trustedCIDRs (trusting ["::ffff:10.0.0.0/104"%string])) ->
        familyOfIP (net.ParseIP "10.1.2.3") = Some V4 ->
        familyOfRange r = Some V6 ->
        IsIPTrusted (trusting ["::ffff:10.0.0.0/104"%string])
          (net.ParseIP "10.1.2.3") <> Some r).
Proof.
  intros H.
  apply (H (net.mkIPNet
              (Some [0; 0; 0; 0; 0; 0; 0; 0; 0; 0; 255; 255; 10; 0; 0; 0])
              (Some [255; 255; 255; 255; 255; 255; 255; 255; 255; 255; 255; 255;
                     255; 0; 0; 0])));
    [left; reflexivity|reflexivity|reflexivity|reflexivity].
Qed.

(** C7. [headerToIPs] splits the header on commas, trims the white space
    around each segment and parses what is left as an address.
    - The empty header, and a header that is white space only (one segment
      that trims to nothing), give the empty sequence.
    - A header written as segments joined by commas, each an arbitrary text
      with white space before and after it, gives one entry per segment, in
      order: what the text parses to without the white space, nil when it
      does not parse. (White space is Unicode's; the text has no comma and
      no white space at its ends.)
    - "10.10.10.10, ugh, 20.20.20.20" gives three entries: an address, nil,
      an address. White space after a segment and IPv6 segments are handled
      alike. *)
Theorem C7_headerToIPs_entries :
  headerToIPs "" = []
  /\ (forall header, white header -> headerToIPs header = [])
  /\ (forall parts,
         parts <> [] -> Forall goodPart parts ->
         (forall p, parts = [p] -> core p <> EmptyString) ->
         headerToIPs (joinCommas (map padded parts))
         = map (fun p => net.ParseIP (core p)) parts)
  /\ (forall header seg,
         strings.Split header "," = [seg] ->
         strings.TrimSpace seg = EmptyString ->
         headerToIPs header = [])
  /\ (forall header,
         (forall seg, strings.Split header "," = [seg] ->
                      strings.TrimSpace seg <> EmptyString) ->
         headerToIPs header
         = map (fun seg => net.ParseIP (strings.TrimSpace seg))
             (strings.Split header ",")
         /\ List.length (headerToIPs header)
            = List.length (strings.Split header ","))
  /\ headerToIPs "10.10.10.10, ugh, 20.20.20.20"
     = [Some [0; 0; 0; 0; 0; 0; 0; 0; 0; 0; 255; 255; 10; 10; 10; 10];
        None;
        Some [0; 0; 0; 0; 0; 0; 0; 0; 0; 0; 255; 255; 20; 20; 20; 20]]
  /\ headerToIPs "1.2.3.4 ,5.6.7.8  "
     = [Some [0; 0; 0; 0; 0; 0; 0; 0; 0; 0; 255; 255; 1; 2; 3; 4];
        Some [0; 0; 0; 0; 0; 0; 0; 0; 0; 0; 255; 255; 5; 6; 7; 8]]
  /\ headerToIPs (String (ascii_of_nat 9) "2001:db8::1 , ::ffff:10.0.0.1"
                   ++ String (ascii_of_nat 194) (String (ascii_of_nat 160) ""))
     = [Some [32; 1; 13; 184; 0; 0; 0; 0; 0; 0; 0; 0; 0; 0; 0; 1];
        Some [0; 0; 0; 0; 0; 0; 0; 0; 0; 0; 255; 255; 10; 0; 0; 1]]
  /\ headerToIPs "10.10.10.10 x, 20.20.20.20" = [None; net.ParseIP "20.20.20.20"].
Proof.
  split; [reflexivity|]. split; [|split; [|split; [|split]]].
  - intros header Hw.
    apply (headerToIPs_single_blank header header).
    + apply Split_no_sep. now apply noComma_chars, white_noComma.
    + now apply TrimSpace_white.
  - exact headerToIPs_padded.
  - apply headerToIPs_single_blank.
  - intros header H. rewrite (headerToIPs_entries header H).
    split; [reflexivity|apply length_map].
  - repeat split; reflexivity.
Qed.

Lemma C7_headerToIPs_entries_witness :
  headerToIPs "  " = []
  /\ headerToIPs " 10.10.10.10  ,ugh ,  2001:db8::1 "
     = [net.ParseIP "10.10.10.10"; net.ParseIP "ugh"; net.ParseIP "2001:db8::1"]
  /\ List.length (headerToIPs "10.10.10.10, , 20.20.20.20") = 3%nat.
Proof.
  assert (W0 : white "") by (exists []; split; [constructor|reflexivity]).
  assert (W1 : white " ").
  { exists [[32]]. split; [|reflexivity].
    constructor; [|constructor]. unfold whiteRunes. simpl. tauto. }
  assert (W2 : white "  ").
  { exists [[32]; [32]]. split; [|reflexivity].
    repeat (constructor; [unfold whiteRunes; simpl; tauto|]). constructor. }
  assert (N : forall s, (forall b, In b (bytes_of_string s) -> b <> 44) ->
                        noComma s).
  { intros s H Hin. exact (H 44 Hin eq_refl). }
  split; [|split].
  - exact (proj1 (proj2 C7_headerToIPs_entries) "  "%string W2).
  - refine (proj1 (proj2 (proj2 C7_headerToIPs_entries))
              [mkPart " " "10.10.10.10" "  "; mkPart "" "ugh" " ";
               mkPart "  " "2001:db8::1" " "] _ _ _).
    + discriminate.
    + repeat (constructor;
              [split; [assumption|]; split; [assumption|]; split;
               [split; unfold solid; cbn; lia
               |apply N; cbn; intros b Hb;
                repeat (destruct Hb as [<-|Hb]; [discriminate|]); contradiction]
              |]).
      constructor.
    + intros p H. discriminate H.
  - refine (proj2 (proj1 (proj2 (proj2 (proj2 (proj2 C7_headerToIPs_entries))))
                     "10.10.10.10, , 20.20.20.20"%string _)).
    intros seg H. discriminate.
Defined.

(** C8. A specification that parses neither as address/prefix-length nor as
    a bare address is ignored: [AddFromString] returns the nil error and
    leaves the stored networks as they were, so every later [IsIPTrusted]
    answers as before. (The error is nil for every specification.) *)
Theorem C8_AddFromString_ignores_malformed (t : TrustedProxies) (s : string) :
  net.ParseCIDR s = None -> net.ParseIP s = None ->
  AddFromString t s = (t, None)
  /\ trustedCIDRs (fst (AddFromString t s)) = trustedCIDRs t
  /\ (forall ip, IsIPTrusted (fst (AddFromString t s)) ip = IsIPTrusted t ip)
  /\ (forall s', snd (AddFromString t s') = None).
Proof.
  intros Hc Hi. rewrite (AddFromString_ignores t s Hc Hi).
  repeat split. intros s'. unfold AddFromString.
  destruct (netFromIPOrCIDR s'); reflexivity.
Qed.

Lemma C8_AddFromString_ignores_malformed_witness :
  AddFromString (trusting ["192.168.10.10/24"%string]) "this is not valid"
  = (trusting ["192.168.10.10/24"%string], None).
Proof.
  exact (proj1 (C8_AddFromString_ignores_malformed
                  (trusting ["192.168.10.10/24"%string]) "this is not valid"
                  eq_refl eq_refl)).
Defined.

Lemma filterOut_head (t : TrustedProxies) (remoteAddr : net.IP) (header : string)
    (chain : list net.IP) :
  net.isNil remoteAddr = false ->
  filterOutIPsFromUntrustedSources t remoteAddr header = Returned chain ->
  exists rest, chain = remoteAddr :: rest.
Proof.
  intros Hnil H. rewrite filterOut_scan in H. cbn [scan] in H.
  rewrite Hnil in H.
  destruct (netip.isSome (IsIPTrusted t remoteAddr)).
  - apply scan_returned in H.
    destruct H as (near & x & far & _ & _ & [[_ ->]|(_ & _ & ->)]);
      eexists; reflexivity.
  - injection H as <-. now exists [].
Qed.

(** C9. When the peer is a real address and the walk returns, the returned
    chain is not empty: its first element is the peer, trusted or not; and
    [DeduceClientIP] returns an element of that chain. *)
Theorem C9_client_in_chain (t : TrustedProxies) (remoteAddr : net.IP)
    (header : string) (chain : list net.IP) :
  net.isNil remoteAddr = false ->
  filterOutIPsFromUntrustedSources t remoteAddr header = Returned chain ->
  chain <> []
  /\ In remoteAddr chain
  /\ exists client,
       DeduceClientIP t remoteAddr header = Returned client /\ In client chain.
Proof.
  intros Hnil H.
  destruct (filterOut_head _ _ _ _ Hnil H) as [rest ->].
  split; [discriminate|]. split; [now left|].
  unfold DeduceClientIP. rewrite H.
  destruct (exists_last (l := remoteAddr :: rest)) as (init & client & E);
    [discriminate|].
  rewrite E. exists client. split; [apply index_last|].
  apply in_or_app. right. now left.
Qed.

Lemma C9_client_in_chain_witness :
  exists client,
    DeduceClientIP (trusting ["10.10.10.10"%string; "20.20.20.20"%string])
      (net.ParseIP "10.10.10.10") "30.30.30.30, 20.20.20.20"
    = Returned client
    /\ In client [net.ParseIP "10.10.10.10"; net.ParseIP "20.20.20.20";
                  net.ParseIP "30.30.30.30"].
Proof.
  exact (proj2 (proj2 (C9_client_in_chain
                         (trusting ["10.10.10.10"%string; "20.20.20.20"%string])
                         (net.ParseIP "10.10.10.10") "30.30.30.30, 20.20.20.20"
                         _ eq_refl eq_refl))).
Defined.

(** C10. When the evaluation returns (a chain from the walk and a client from
    [DeduceClientIP]), the chain starts with the peer and is the reverse of a
    contiguous suffix of the header entries followed by the peer; every
    element but the last is trusted by the store; the last element is the
    deduced client. *)
Theorem C10_chain_shape (t : TrustedProxies) (remoteAddr : net.IP)
    (header : string) (chain : list net.IP) (client : net.IP) :
  filterOutIPsFromUntrustedSources t remoteAddr header = Returned chain ->
  DeduceClientIP t remoteAddr header = Returned client ->
  (exists rest, chain = remoteAddr :: rest)
  /\ (exists pre suf,
         headerToIPs header ++ [remoteAddr] = pre ++ suf /\ chain = rev suf)
  /\ (exists init,
         chain = init ++ [client]
         /\ forall ip, In ip init -> IsIPTrusted t ip <> None).
Proof.
  intros H Hc. unfold DeduceClientIP in Hc. rewrite H in Hc.
  apply index_last_inv in Hc. destruct Hc as [init Hlast].
  rewrite filterOut_scan in H. apply scan_returned in H.
  destruct H as (near & x & far & Hback & Hnear & Hstop). simpl in Hstop.
  assert (Hips : headerToIPs header ++ [remoteAddr]
                 = (rev far ++ [x]) ++ rev near).
  { apply (f_equal (@rev net.IP)) in Hback. simpl in Hback.
    rewrite rev_involutive in Hback. rewrite Hback.
    rewrite rev_app_distr. reflexivity. }
  split; [|split].
  - destruct near as [|a near'].
    + injection Hback as <- _.
      destruct Hstop as [[_ ->]|(_ & _ & ->)]; [|now exists []].
      destruct init; discriminate.
    + injection Hback as <- _.
      destruct Hstop as [[_ ->]|(_ & _ & ->)]; eexists; reflexivity.
  - destruct Hstop as [[_ ->]|(_ & _ & ->)].
    + exists (rev far ++ [x]), (rev near).
      split; [assumption|now rewrite rev_involutive].
    + exists (rev far), (x :: rev near). split.
      * rewrite Hips. now rewrite <- app_assoc.
      * simpl. now rewrite rev_involutive.
  - exists init. split; [assumption|].
    destruct Hstop as [[_ ->]|(_ & _ & ->)].
    + subst near. intros ip Hin.
      apply (passed_trusted t _ Hnear). apply in_or_app. now left.
    + apply app_inj_tail in Hlast. destruct Hlast as [-> _].
      apply (passed_trusted t _ Hnear).
Qed.

Lemma C10_chain_shape_witness :
  exists init,
    [net.ParseIP "10.10.10.10"; net.ParseIP "20.20.20.20"; net.ParseIP "30.30.30.30"]
    = init ++ [net.ParseIP "30.30.30.30"]
    /\ forall ip, In ip init ->
         IsIPTrusted (trusting ["10.10.10.10"%string; "20.20.20.20"%string]) ip
         <> None.
Proof.
  exact (proj2 (proj2 (C10_chain_shape
                         (trusting ["10.10.10.10"%string; "20.20.20.20"%string])
                         (net.ParseIP "10.10.10.10")
                         "40.40.40.40, 30.30.30.30, 20.20.20.20"
                         _ _ eq_refl eq_refl))).
Defined.

(** * Further properties of the package *)

(** ** The walk *)

Lemma chain_of_back (remoteAddr : net.IP) (ips : list net.IP) :
  ips ++ [remoteAddr] = rev (remoteAddr :: rev ips).
Proof. simpl. now rewrite rev_involutive. Qed.

Lemma scan_extend (t : TrustedProxies) (n n' : Z) (back more rv chain : list net.IP) :
  scan t n back rv = Returned chain ->
  scan t n' (back ++ more) rv = Returned chain.
Proof.
  revert rv. induction back as [|ip back IH]; intros rv H; simpl in *.
  - discriminate.
  - destruct (net.isNil ip); [assumption|].
    destruct (netip.isSome (IsIPTrusted t ip)); [now apply IH|assumption].
Qed.

(** X1. A peer that the store does not trust is the whole answer: whatever
    the header holds, the chain is [[peer]] and the peer is the deduced
    client. *)
Theorem untrusted_peer_ignores_header (t : TrustedProxies) (remoteAddr : net.IP)
    (header : string) :
  net.isNil remoteAddr = false ->
  IsIPTrusted t remoteAddr = None ->
  filterOutIPsFromUntrustedSources t remoteAddr header = Returned [remoteAddr]
  /\ DeduceClientIP t remoteAddr header = Returned remoteAddr.
Proof.
  intros Hnil Hu.
  assert (E : filterOutIPsFromUntrustedSources t remoteAddr header
              = Returned [remoteAddr]).
  { rewrite filterOut_scan. cbn [scan]. rewrite Hnil.
    apply isSome_untrusted in Hu. now rewrite Hu. }
  split; [exact E|]. unfold DeduceClientIP. rewrite E. reflexivity.
Qed.

Lemma untrusted_peer_ignores_header_witness :
  DeduceClientIP (trusting ["30.30.30.30"%string]) (net.ParseIP "10.10.10.10")
    "30.30.30.30, 20.20.20.20"
  = Returned (net.ParseIP "10.10.10.10").
Proof.
  exact (proj2 (untrusted_peer_ignores_header (trusting ["30.30.30.30"%string])
                  (net.ParseIP "10.10.10.10") "30.30.30.30, 20.20.20.20"
                  eq_refl eq_refl)).
Defined.

(** X2. The store that [New] makes trusts no address, so with it the deduced
    client is the peer, for every header. *)
Theorem New_trusts_nothing (remoteAddr : net.IP) (header : string) :
  (forall ip, IsIPTrusted New ip = None)
  /\ (net.isNil remoteAddr = false ->
      filterOutIPsFromUntrustedSources New remoteAddr header = Returned [remoteAddr]
      /\ DeduceClientIP New remoteAddr header = Returned remoteAddr).
Proof.
  split; [reflexivity|]. intros Hnil.
  assert (E : filterOutIPsFromUntrustedSources New remoteAddr header
              = Returned [remoteAddr]).
  { rewrite filterOut_scan. cbn [scan]. now rewrite Hnil. }
  split; [exact E|]. unfold DeduceClientIP. rewrite E. reflexivity.
Qed.

Lemma New_trusts_nothing_witness :
  DeduceClientIP New (net.ParseIP "10.10.10.10") "1.2.3.4, 10.10.10.10"
  = Returned (net.ParseIP "10.10.10.10").
Proof.
  exact (proj2 (proj2 (New_trusts_nothing (net.ParseIP "10.10.10.10")
                         "1.2.3.4, 10.10.10.10") eq_refl)).
Defined.

(** X3. When [DeduceClientIP] panics: exactly when the peer is nil (the
    chain is empty and its last element is asked for) or when the peer and
    every entry of the header are addresses that the store trusts (the walk
    leaves the chain). In every other case it returns. *)
Theorem DeduceClientIP_panics_iff (t : TrustedProxies) (remoteAddr : net.IP)
    (header : string) :
  ((exists p, DeduceClientIP t remoteAddr header = Panicked p)
   <-> (net.isNil remoteAddr = true
        \/ forall ip, In ip (headerToIPs header ++ [remoteAddr]) -> passed t ip))
  /\ ((exists p, DeduceClientIP t remoteAddr header = Panicked p)
      \/ exists client, DeduceClientIP t remoteAddr header = Returned client).
Proof.
  split.
  - split.
    + intros [p Hp]. unfold DeduceClientIP in Hp.
      destruct (filterOutIPsFromUntrustedSources t remoteAddr header)
        as [chain| |] eqn:H; [| |discriminate].
      * destruct (net.isNil remoteAddr) eqn:Hnil; [now left|].
        destruct (filterOut_head _ _ _ _ Hnil H) as [rest ->].
        destruct (exists_last (l := remoteAddr :: rest)) as (init & c & E);
          [discriminate|].
        rewrite E, index_last in Hp. discriminate.
      * right. rewrite filterOut_scan in H.
        destruct (scan_outcome t
                    (Z.of_nat (List.length (headerToIPs header ++ [remoteAddr])))
                    (remoteAddr :: rev (headerToIPs header)) [])
          as [[chain Hc]|[Hall _]]; [congruence|].
        intros ip Hin. rewrite chain_of_back in Hin. apply in_rev in Hin.
        rewrite Forall_forall in Hall. now apply Hall.
    + intros [Hnil|Hall]; unfold DeduceClientIP.
      * rewrite filterOut_scan.
        rewrite (scan_stop_nil t _ [] (rev (headerToIPs header)) [] remoteAddr);
          [|constructor|assumption].
        eexists. reflexivity.
      * rewrite filterOut_scan, scan_exhausted; [eexists; reflexivity|].
        apply Forall_forall. intros ip Hin. apply Hall.
        rewrite chain_of_back. now apply in_rev in Hin.
  - pose proof (DeduceClientIP_finishes t remoteAddr header) as Hf.
    destruct (DeduceClientIP t remoteAddr header) as [c|p|];
      [right; now exists c|left; now exists p|contradiction].
Qed.

Lemma DeduceClientIP_panics_iff_witness :
  (exists p, DeduceClientIP (trusting ["10.10.10.10"%string]) None "1.2.3.4"
             = Panicked p)
  /\ (exists p,
         DeduceClientIP (trusting ["10.10.10.10"%string; "20.20.20.20"%string])
           (net.ParseIP "10.10.10.10") "20.20.20.20" = Panicked p).
Proof.
  split.
  - apply (proj2 (proj1 (DeduceClientIP_panics_iff
                           (trusting ["10.10.10.10"%string]) None "1.2.3.4"))).
    left. reflexivity.
  - apply (proj2 (proj1 (DeduceClientIP_panics_iff
                           (trusting ["10.10.10.10"%string; "20.20.20.20"%string])
                           (net.ParseIP "10.10.10.10") "20.20.20.20"))).
    right. intros ip [<-|[<-|[]]]; (split; [reflexivity|vm_compute; discriminate]).
Defined.

(** X4. What [DeduceClientIP] returns is never nil and is the peer or an
    entry of the header. It is an address the store does not trust, unless
    the walk was cut short by a nil entry: then it is the entry just after
    that nil entry in the chain. *)
Theorem deduced_client_origin (t : TrustedProxies) (remoteAddr : net.IP)
    (header : string) (client : net.IP) :
  DeduceClientIP t remoteAddr header = Returned client ->
  net.isNil client = false
  /\ In client (headerToIPs header ++ [remoteAddr])
  /\ (IsIPTrusted t client = None
      \/ exists pre x suf,
           headerToIPs header ++ [remoteAddr] = pre ++ x :: client :: suf
           /\ net.isNil x = true).
Proof.
  intros Hc. unfold DeduceClientIP in Hc.
  destruct (filterOutIPsFromUntrustedSources t remoteAddr header)
    as [chain| |] eqn:H; try discriminate.
  apply index_last_inv in Hc. destruct Hc as [init ->].
  rewrite filterOut_scan in H. apply scan_returned in H.
  destruct H as (near & x & far & Hback & Hnear & Hstop). simpl in Hstop.
  rewrite chain_of_back, Hback.
  destruct Hstop as [[Hx Hchain]|(Hx & Hu & Hchain)].
  - subst near. rewrite Forall_forall in Hnear.
    assert (Hin : In client (init ++ [client])).
    { apply in_or_app. right. now left. }
    split; [exact (proj1 (Hnear _ Hin))|]. split.
    + apply in_rev. rewrite rev_involutive. apply in_or_app. now left.
    + right. exists (rev far), x, (rev init). split; [|assumption].
      rewrite rev_app_distr. simpl. rewrite rev_app_distr. simpl.
      now rewrite <- app_assoc.
  - apply app_inj_tail in Hchain. destruct Hchain as [<- <-].
    split; [assumption|]. split; [|now left].
    apply in_rev. rewrite rev_involutive. apply in_or_app. right. now left.
Qed.

Lemma deduced_client_origin_witness :
  net.isNil (net.ParseIP "30.30.30.30") = false
  /\ In (net.ParseIP "30.30.30.30")
       (headerToIPs "40.40.40.40, 30.30.30.30, 20.20.20.20"
        ++ [net.ParseIP "10.10.10.10"]).
Proof.
  pose proof (deduced_client_origin
                (trusting ["10.10.10.10"%string; "20.20.20.20"%string])
                (net.ParseIP "10.10.10.10")
                "40.40.40.40, 30.30.30.30, 20.20.20.20"
                (net.ParseIP "30.30.30.30") eq_refl) as (H1 & H2 & _).
  split; assumption.
Defined.

(** ** Text to the left of the header *)

Lemma Split_app (a b : string) (sep : ascii) :
  strings.Split (a ++ String sep b)%string sep
  = strings.Split a sep ++ strings.Split b sep.
Proof.
  induction a as [|c a IH]; simpl.
  - now rewrite Ascii.eqb_refl.
  - destruct (Ascii.eqb c sep); [now rewrite IH|].
    rewrite IH. pose proof (Split_nonempty a sep) as Hne.
    destruct (strings.Split a sep); [contradiction|reflexivity].
Qed.

Lemma headerToIPs_cases (header : string) :
  headerToIPs header = []
  \/ headerToIPs header = map entryOf (strings.Split header ",").
Proof.
  unfold headerToIPs. destruct (_ && _); [now left|now right].
Qed.

Lemma headerToIPs_prepend (a b : string) :
  exists pre, headerToIPs (a ++ String "," b)%string = pre ++ headerToIPs b.
Proof.
  assert (E : headerToIPs (a ++ String "," b)%string
              = map entryOf (strings.Split a ",")
                ++ map entryOf (strings.Split b ",")).
  { unfold headerToIPs. rewrite Split_app.
    pose proof (Split_nonempty a ",") as Ha.
    pose proof (Split_nonempty b ",") as Hb.
    destruct (strings.Split a ",") as [|sa la]; [contradiction|].
    destruct (strings.Split b ",") as [|sb lb]; [contradiction|].
    replace (List.length ((sa :: la) ++ sb :: lb) =? 1)%nat with false.
    - cbn [andb]. now rewrite map_app.
    - symmetry. apply Nat.eqb_neq. rewrite length_app. simpl. lia. }
  destruct (headerToIPs_cases b) as [Hb|Hb]; rewrite Hb, E.
  - eexists. now rewrite app_nil_r.
  - eexists. reflexivity.
Qed.

(** X5. Text put to the left of the header cannot change an evaluation that
    returns: the chain and the deduced client found for a header are found
    again for that header behind any further entries. *)
Theorem prepended_entries_ignored (t : TrustedProxies) (remoteAddr : net.IP)
    (left header : string) :
  (forall chain,
      filterOutIPsFromUntrustedSources t remoteAddr header = Returned chain ->
      filterOutIPsFromUntrustedSources t remoteAddr
        (left ++ String "," header)%string = Returned chain)
  /\ (forall client,
         DeduceClientIP t remoteAddr header = Returned client ->
         DeduceClientIP t remoteAddr (left ++ String "," header)%string
         = Returned client).
Proof.
  assert (F : forall chain,
             filterOutIPsFromUntrustedSources t remoteAddr header = Returned chain ->
             filterOutIPsFromUntrustedSources t remoteAddr
               (left ++ String "," header)%string = Returned chain).
  { intros chain H. rewrite filterOut_scan in *.
    destruct (headerToIPs_prepend left header) as [pre ->].
    rewrite rev_app_distr, app_comm_cons.
    now apply scan_extend with (n := Z.of_nat (List.length (headerToIPs header ++ [remoteAddr]))). }
  split; [exact F|].
  intros client Hc. unfold DeduceClientIP in *.
  destruct (filterOutIPsFromUntrustedSources t remoteAddr header)
    as [chain| |] eqn:H; try discriminate.
  now rewrite (F chain eq_refl).
Qed.

Lemma prepended_entries_ignored_witness :
  DeduceClientIP (trusting ["10.10.10.10"%string]) (net.ParseIP "10.10.10.10")
    "10.10.10.10, 127.0.0.1,20.20.20.20"
  = Returned (net.ParseIP "20.20.20.20").
Proof.
  exact (proj2 (prepended_entries_ignored (trusting ["10.10.10.10"%string])
                  (net.ParseIP "10.10.10.10") "10.10.10.10, 127.0.0.1"
                  "20.20.20.20") _ eq_refl).
Defined.

(** ** Growing the store *)

Lemma find_snoc {A : Type} (f : A -> bool) (l : list A) (x : A) :
  find f (l ++ [x])
  = match find f l with
    | Some r => Some r
    | None => if f x then Some x else None
    end.
Proof.
  induction l as [|y l IH]; simpl; [reflexivity|].
  destruct (f y); [reflexivity|exact IH].
Qed.

(** X6. [AddFromString] never changes the answer for an address that was
    already trusted: [IsIPTrusted] keeps returning the same network. An
    address that was not trusted becomes trusted exactly when the added
    specification parses to a network that contains it, and that network is
    the one returned. *)
Theorem AddFromString_keeps_answers (t : TrustedProxies) (s : string) (ip : net.IP) :
  (forall r, IsIPTrusted t ip = Some r ->
             IsIPTrusted (fst (AddFromString t s)) ip = Some r)
  /\ (IsIPTrusted t ip = None ->
      IsIPTrusted (fst (AddFromString t s)) ip
      = match netFromIPOrCIDR s with
        | inl ipnet => if net.Contains ipnet ip then Some ipnet else None
        | inr _ => None
        end).
Proof.
  unfold AddFromString, IsIPTrusted.
  destruct (netFromIPOrCIDR s) as [ipnet|e]; simpl.
  - rewrite find_snoc. split.
    + intros r ->. reflexivity.
    + intros ->. reflexivity.
  - split; [intros r H; exact H|intros H; exact H].
Qed.

Lemma AddFromString_keeps_answers_witness :
  IsIPTrusted (fst (AddFromString (trusting ["192.168.0.0/16"%string])
                      "192.168.10.0/24"))
    (net.ParseIP "192.168.10.2")
  = Some (net.mkIPNet (Some [192; 168; 0; 0]) (Some [255; 255; 0; 0]))
  /\ IsIPTrusted (fst (AddFromString (trusting ["192.168.0.0/16"%string])
                         "10.0.0.0/8"))
       (net.ParseIP "10.1.2.3")
     = Some (net.mkIPNet (Some [10; 0; 0; 0]) (Some [255; 0; 0; 0])).
Proof.
  split.
  - exact (proj1 (AddFromString_keeps_answers (trusting ["192.168.0.0/16"%string])
                    "192.168.10.0/24" (net.ParseIP "192.168.10.2")) _ eq_refl).
  - exact (proj2 (AddFromString_keeps_answers (trusting ["192.168.0.0/16"%string])
                    "10.0.0.0/8" (net.ParseIP "10.1.2.3")) eq_refl).
Defined.

(** X7. A run of [AddFromString] calls adds to the store the networks of the
    specifications that parse, in the order of the calls, and nothing for the
    others; so a store filled from [New] holds exactly those networks, never
    more of them than there were calls. *)
Theorem AddFromString_run (t : TrustedProxies) (specs : list string) :
  trustedCIDRs (fold_left (fun t spec => fst (AddFromString t spec)) specs t)
  = trustedCIDRs t ++ networksOf specs
  /\ trustedCIDRs (trusting specs) = networksOf specs
  /\ (List.length (trustedCIDRs (trusting specs)) <= List.length specs)%nat.
Proof.
  assert (G : forall specs t,
             trustedCIDRs (fold_left (fun t spec => fst (AddFromString t spec)) specs t)
             = trustedCIDRs t ++ networksOf specs).
  { clear. induction specs as [|s specs IH]; intros t; simpl.
    - now rewrite app_nil_r.
    - rewrite IH. unfold AddFromString.
      destruct (netFromIPOrCIDR s); simpl; [now rewrite <- app_assoc|reflexivity]. }
  split; [apply G|]. split; [apply (G specs New)|].
  unfold trusting. rewrite G. simpl. clear.
  induction specs as [|s specs IH]; simpl; [lia|].
  destruct (netFromIPOrCIDR s); simpl; lia.
Qed.

(** ** What the address parsers return *)

Lemma isDigit_range (c : Z) : netip.isDigit c = true -> 0 <= c - 48 <= 9.
Proof. unfold netip.isDigit. intros H. apply andb_prop in H. lia. Qed.

Lemma parseIPv4Loop_bytes (s : list Z) :
  forall (first prevDot : bool) (val digLen : Z) (fields out : list Z),
    0 <= val <= 255 -> Forall isByte fields -> (List.length fields <= 3)%nat ->
    netip.parseIPv4Loop s first prevDot val digLen fields = Some out ->
    List.length out = 4%nat /\ Forall isByte out.
Proof.
  induction s as [|c s IH]; intros first prevDot val digLen fields out Hv Hf Hl H;
    simpl in H.
  - destruct (Z.of_nat (List.length fields) <? 3) eqn:E; [discriminate|].
    injection H as <-. apply Z.ltb_ge in E. split.
    + rewrite length_app. simpl. lia.
    + apply Forall_app. split; [assumption|]. constructor; [|constructor].
      unfold isByte. lia.
  - destruct (netip.isDigit c) eqn:Hd.
    + destruct ((digLen =? 1) && (val =? 0)); [discriminate|].
      destruct (val * 10 + (c - 48) >? 255) eqn:E; [discriminate|].
      rewrite Z.gtb_ltb in E. apply Z.ltb_ge in E.
      apply isDigit_range in Hd.
      refine (IH _ _ _ _ _ _ _ Hf Hl H). lia.
    + destruct (c =? 46); [|discriminate].
      destruct (first || netip.isEmpty s || prevDot); [discriminate|].
      destruct (Z.of_nat (List.length fields) =? 3) eqn:E; [discriminate|].
      apply Z.eqb_neq in E.
      refine (IH _ _ _ _ _ _ _ _ _ H).
      * lia.
      * apply Forall_app. split; [assumption|]. constructor; [|constructor].
        unfold isByte. lia.
      * rewrite length_app. simpl. lia.
Qed.

Lemma parseIPv4Fields_bytes (s out : list Z) :
  netip.parseIPv4Fields s = Some out ->
  List.length out = 4%nat /\ Forall isByte out.
Proof.
  apply parseIPv4Loop_bytes; [lia|constructor|simpl; lia].
Qed.

Lemma hexVal_range (c d : Z) : netip.hexVal c = Some d -> 0 <= d <= 15.
Proof.
  unfold netip.hexVal.
  destruct ((48 <=? c) && (c <=? 57)) eqn:E1.
  { intros H. injection H as <-. apply andb_prop in E1. lia. }
  destruct ((97 <=? c) && (c <=? 102)) eqn:E2.
  { intros H. injection H as <-. apply andb_prop in E2. lia. }
  destruct ((65 <=? c) && (c <=? 70)) eqn:E3; [|discriminate].
  intros H. injection H as <-. apply andb_prop in E3. lia.
Qed.

Lemma hexGroup_range (s : list Z) :
  forall (off acc acc' off' : Z) (rest : list Z),
    0 <= acc <= 65535 ->
    netip.hexGroup s off acc = Some (acc', off', rest) ->
    0 <= acc' <= 65535.
Proof.
  induction s as [|c s IH]; intros off acc acc' off' rest Ha H;
    cbn [netip.hexGroup] in H.
  - injection H as <- _ _. assumption.
  - destruct (netip.hexVal c) as [d|] eqn:Hd.
    + destruct (off >? 3); [discriminate|].
      destruct (Z.shiftl acc 4 + d >? 65535) eqn:E; [discriminate|].
      rewrite Z.gtb_ltb in E. apply Z.ltb_ge in E.
      apply hexVal_range in Hd.
      refine (IH _ _ _ _ _ _ H).
      rewrite Z.shiftl_mul_pow2 in * by lia. lia.
    + injection H as <- _ _. assumption.
Qed.

Lemma chunk_bytes (acc : Z) :
  0 <= acc <= 65535 -> isByte (Z.shiftr acc 8) /\ isByte (Z.land acc 255).
Proof.
  intros H. unfold isByte. split.
  - rewrite Z.shiftr_div_pow2 by lia. change (2 ^ 8) with 256.
    split; [apply Z.div_pos; lia|apply Z.div_lt_upper_bound; lia].
  - change 255 with (Z.ones 8). rewrite Z.land_ones by lia.
    change (2 ^ 8) with 256. apply Z.mod_pos_bound. lia.
Qed.

Lemma parseIPv6Groups_bytes (n : nat) :
  forall (s ip : list Z) (ellipsis : option Z) (s' ip' : list Z) (e' : option Z),
    Forall isByte ip -> (List.length ip + 2 * n = 16)%nat ->
    netip.parseIPv6Groups n s ip ellipsis = Some (s', ip', e') ->
    Forall isByte ip' /\ (List.length ip' <= 16)%nat.
Proof.
  induction n as [|n IH]; intros s ip ellipsis s' ip' e' Hb Hl H; simpl in H.
  - injection H as _ <- _. split; [assumption|lia].
  - destruct (netip.hexGroup s 0 0) as [[[acc off] rest]|] eqn:Hg; [|discriminate].
    apply hexGroup_range in Hg; [|lia].
    destruct (off =? 0); [discriminate|].
    destruct (netip.startsWith 46 rest).
    + destruct (negb (netip.isSome ellipsis)
                && negb (Z.of_nat (List.length ip) =? 12)); [discriminate|].
      destruct (Z.of_nat (List.length ip) + 4 >? 16) eqn:E; [discriminate|].
      rewrite Z.gtb_ltb in E. apply Z.ltb_ge in E.
      destruct (netip.parseIPv4Fields s) as [fields|] eqn:Hf; [|discriminate].
      injection H as _ <- _. apply parseIPv4Fields_bytes in Hf.
      destruct Hf as [Hlen Hfb]. split.
      * apply Forall_app. now split.
      * rewrite length_app. lia.
    + destruct (chunk_bytes acc Hg) as [Hhi Hlo].
      assert (Hb' : Forall isByte (ip ++ [Z.shiftr acc 8; Z.land acc 255])).
      { apply Forall_app. split; [assumption|].
        constructor; [assumption|]. constructor; [assumption|constructor]. }
      assert (Hl' : (List.length (ip ++ [Z.shiftr acc 8; Z.land acc 255]) + 2 * n
                     = 16)%nat).
      { rewrite length_app. simpl. lia. }
      destruct rest as [|c s1].
      { injection H as _ <- _. split; [assumption|lia]. }
      destruct (negb (c =? 58)); [discriminate|].
      destruct s1 as [|c1 s2]; [discriminate|].
      destruct (c1 =? 58).
      * destruct (netip.isSome ellipsis); [discriminate|].
        destruct (netip.isEmpty s2).
        { injection H as _ <- _. split; [assumption|lia]. }
        exact (IH _ _ _ _ _ _ Hb' Hl' H).
      * exact (IH _ _ _ _ _ _ Hb' Hl' H).
Qed.

Lemma zeros_bytes (k : nat) : Forall isByte (repeat 0 k).
Proof.
  induction k; simpl; constructor; [unfold isByte; lia|assumption].
Qed.

Lemma parseIPv6_bytes (input : list Z) (a : netip.Addr) :
  netip.parseIPv6 input = Some a ->
  netip.Is4 a = false
  /\ List.length (netip.As16 a) = 16%nat /\ Forall isByte (netip.As16 a).
Proof.
  unfold netip.parseIPv6.
  destruct (match netip.cutAt 37 input with
            | Some (s, zone) => if netip.isEmpty zone then None else Some (s, zone)
            | None => Some (input, [])
            end) as [[s zone]|]; [|discriminate].
  set (st := match s with
             | 58 :: 58 :: s' => (s', Some 0, netip.isEmpty s')
             | _ => (s, None, false)
             end).
  destruct st as [[s0 ellipsis] only].
  destruct only.
  { intros H. injection H as <-. simpl.
    repeat split; repeat constructor; unfold isByte; lia. }
  destruct (netip.parseIPv6Groups 8 s0 [] ellipsis) as [[[s1 ip] e]|] eqn:Hg;
    [|discriminate].
  apply parseIPv6Groups_bytes in Hg; [|constructor|reflexivity].
  destruct Hg as [Hb Hl].
  destruct (negb (netip.isEmpty s1)); [discriminate|].
  destruct (Z.of_nat (List.length ip) <? 16) eqn:E.
  - destruct e as [e|]; [|discriminate].
    apply Z.ltb_lt in E.
    assert (Hk : exists k, Z.to_nat (16 - Z.of_nat (List.length ip)) = k
                           /\ (List.length ip + k = 16)%nat).
    { eexists. split; [reflexivity|lia]. }
    destruct Hk as (k & -> & Hk).
    intros H. injection H as <-. cbn [netip.Is4 netip.As16].
    split; [reflexivity|]. split.
    + rewrite !length_app, repeat_length, length_firstn, length_skipn. lia.
    + rewrite <- (firstn_skipn (Z.to_nat e) ip) in Hb.
      apply Forall_app in Hb. destruct Hb as [Hb1 Hb2].
      apply Forall_app. split; [assumption|].
      apply Forall_app. split; [apply zeros_bytes|assumption].
  - destruct (netip.isSome e); [discriminate|].
    intros H. injection H as <-. cbn [netip.Is4 netip.As16].
    apply Z.ltb_ge in E.
    repeat split; [lia|assumption].
Qed.

Lemma ParseAddrBytes_bytes (s : list Z) (a : netip.Addr) :
  netip.ParseAddrBytes s = Some a ->
  List.length (netip.As16 a) = 16%nat
  /\ Forall isByte (netip.As16 a)
  /\ (netip.Is4 a = true ->
      exists fields,
        netip.As16 a = net.v4InV6Prefix ++ fields /\ List.length fields = 4%nat).
Proof.
  unfold netip.ParseAddrBytes.
  destruct (netip.firstMark s) as [c|]; [|discriminate].
  destruct (c =? 46).
  - unfold netip.parseIPv4.
    destruct (netip.parseIPv4Fields s) as [fields|] eqn:Hf; [|discriminate].
    intros H. injection H as <-. apply parseIPv4Fields_bytes in Hf.
    destruct Hf as [Hl Hb]. cbn [netip.AddrFrom4 netip.As16 netip.Is4].
    split; [rewrite length_app, Hl; reflexivity|]. split.
    + apply Forall_app. split; [|assumption].
      repeat (constructor; [unfold isByte; lia|]). constructor.
    + intros _. now exists fields.
  - destruct (c =? 58); [|discriminate].
    intros H. apply parseIPv6_bytes in H. destruct H as (H4 & Hl & Hb).
    split; [assumption|]. split; [assumption|]. rewrite H4. discriminate.
Qed.

Lemma ParseIP_bytes (s : string) (b : list Z) :
  net.ParseIP s = Some b -> List.length b = 16%nat /\ Forall isByte b.
Proof.
  unfold net.ParseIP, netip.ParseAddr.
  destruct (netip.ParseAddrBytes (bytes_of_string s)) as [a|] eqn:Ha; [|discriminate].
  destruct (netip.isEmpty (netip.Zone a)); [|discriminate].
  intros H. injection H as <-. apply ParseAddrBytes_bytes in Ha.
  destruct Ha as (Hl & Hb & _). now split.
Qed.

Lemma maskBytes_length (l : nat) : forall n, List.length (net.maskBytes l n) = l.
Proof.
  induction l as [|l IH]; intros n; simpl; [reflexivity|].
  destruct (n >=? 8); simpl; now rewrite IH.
Qed.

Lemma andBytes_length (a : list Z) :
  forall m, List.length a = List.length m ->
            List.length (net.andBytes a m) = List.length a.
Proof.
  induction a as [|x a IH]; intros [|y m] H; simpl in *; try discriminate.
  - reflexivity.
  - f_equal. apply IH. lia.
Qed.

(** A list of known length, opened into its elements. *)
Ltac open_list l H :=
  repeat (destruct l as [|? l]; simpl in H; try discriminate H).

Lemma Mask_v4 (fields m : list Z) :
  List.length fields = 4%nat -> List.length m = 4%nat ->
  net.Mask (Some (net.v4InV6Prefix ++ fields)) (Some m)
  = Some (net.andBytes fields m).
Proof.
  intros Hf Hm. open_list fields Hf. open_list m Hm. reflexivity.
Qed.

Lemma Mask_v6 (ip m : list Z) :
  List.length ip = 16%nat -> List.length m = 16%nat ->
  net.Mask (Some ip) (Some m) = Some (net.andBytes ip m).
Proof.
  intros Hi Hm. open_list ip Hi. open_list m Hm. reflexivity.
Qed.

Lemma ParseCIDR_wellFormed (s : string) (ip : net.IP) (ipnet : net.IPNet) :
  net.ParseCIDR s = Some (ip, ipnet) -> wellFormed ipnet.
Proof.
  unfold net.ParseCIDR.
  destruct (netip.cutAt 47 (bytes_of_string s)) as [[addr mask]|]; [|discriminate].
  destruct (netip.ParseAddrBytes addr) as [a|] eqn:Ha; [|discriminate].
  destruct (negb (netip.isEmpty (netip.Zone a))); [discriminate|].
  destruct (net.dtoi mask) as [[n i] ok].
  destruct (negb ok || negb (i =? Z.of_nat (List.length mask)) || (n <? 0)
            || (n >? netip.BitLen a)) eqn:C; [discriminate|].
  apply orb_false_elim in C. destruct C as [C Hhi].
  apply orb_false_elim in C. destruct C as [_ Hlo].
  apply ParseAddrBytes_bytes in Ha. destruct Ha as (Hl & _ & H4).
  intros H. injection H as _ <-.
  unfold netip.BitLen in *. unfold wellFormed. cbn [net.IPNet_IP net.IPNet_Mask].
  destruct (netip.Is4 a).
  - destruct (H4 eq_refl) as (fields & E & Hf). rewrite E.
    unfold net.CIDRMask. rewrite Hlo, Hhi. cbn [negb andb orb Z.eqb Z.mul
      net.IPv4len net.IPv6len Pos.mul Pos.eqb].
    change (Z.to_nat (32 / 8)) with 4%nat.
    rewrite Mask_v4 by (assumption || apply maskBytes_length).
    do 2 eexists. split; [reflexivity|]. split; [reflexivity|].
    rewrite andBytes_length, maskBytes_length by now rewrite maskBytes_length.
    split; [assumption|now left].
  - unfold net.CIDRMask. rewrite Hlo, Hhi.
    change (Z.to_nat (128 / 8)) with 16%nat.
    cbn [negb andb orb Z.eqb Z.mul net.IPv4len net.IPv6len Pos.mul Pos.eqb].
    rewrite Mask_v6 by (assumption || apply maskBytes_length).
    do 2 eexists. split; [reflexivity|]. split; [reflexivity|].
    rewrite andBytes_length, maskBytes_length by now rewrite maskBytes_length.
    split; [assumption|now right].
Qed.

(** ** The networks of the store *)

Lemma netFromIPOrCIDR_wellFormed (s : string) (ipnet : net.IPNet) :
  netFromIPOrCIDR s = inl ipnet -> wellFormed ipnet.
Proof.
  unfold netFromIPOrCIDR.
  destruct (net.ParseCIDR s) as [[ip n]|] eqn:Hc.
  - intros H. injection H as <-. exact (ParseCIDR_wellFormed _ _ _ Hc).
  - destruct (net.ParseIP s) as [b|] eqn:Hi; [|discriminate].
    cbn [net.isNil]. apply ParseIP_bytes in Hi. destruct Hi as [Hl _].
    destruct (net.To4 (Some b)) as [x|] eqn:E4; cbn [net.isNil negb].
    + intros H. injection H as <-. apply To4_len in E4.
      unfold wellFormed, net.len. rewrite E4.
      exists x, (net.maskBytes 4 32). repeat split; [assumption|now left].
    + intros H. injection H as <-.
      unfold wellFormed, net.len. rewrite Hl.
      exists b, (net.maskBytes 16 128). repeat split; [assumption|now right].
Qed.

Lemma wellFormed_number_len (n : net.IPNet) :
  wellFormed n ->
  net.len (fst (net.networkNumberAndMask n)) = 4
  \/ net.len (fst (net.networkNumberAndMask n)) = 16.
Proof.
  intros (ip & m & Hi & Hm & Hlen & Hw).
  unfold net.networkNumberAndMask. rewrite Hi, Hm.
  destruct Hw as [H4|H16].
  - rewrite (To4_of_4 ip H4).
    repeat (cbn; rewrite <- ?Hlen, ?H4). now left.
  - destruct (net.To4 (Some ip)) as [x|] eqn:E4.
    + apply To4_len in E4.
      repeat (cbn; rewrite <- ?Hlen, ?H16, ?E4). now left.
    + repeat (cbn; rewrite <- ?Hlen, ?H16). now right.
Qed.

Lemma Contains_wellFormed_len (n : net.IPNet) (ip : net.IP) :
  wellFormed n -> net.Contains n ip = true ->
  net.len (normalized ip) = 4 \/ net.len (normalized ip) = 16.
Proof.
  intros Hw. apply wellFormed_number_len in Hw.
  unfold net.Contains.
  destruct (net.networkNumberAndMask n) as [nn m]. simpl in Hw.
  change (match net.To4 ip with Some x => Some x | None => ip end)
    with (normalized ip).
  destruct (net.len (normalized ip) =? net.len nn) eqn:E; [|discriminate].
  apply Z.eqb_eq in E. intros _. lia.
Qed.

Lemma networksOf_wellFormed (specs : list string) :
  Forall wellFormed (networksOf specs).
Proof.
  induction specs as [|s specs IH]; simpl; [constructor|].
  destruct (netFromIPOrCIDR s) as [n|e] eqn:E; simpl; [|assumption].
  constructor; [exact (netFromIPOrCIDR_wellFormed _ _ E)|assumption].
Qed.

(** X8. [netFromIPOrCIDR] returns either a network whose address and mask
    have one length, 4 or 16 bytes, or, exactly when the text parses neither
    as address/prefix-length nor as an address, the error
    [ErrInvalidIPSpecification] wrapped with that text. *)
Theorem netFromIPOrCIDR_result (s : string) :
  match netFromIPOrCIDR s with
  | inl ipnet => wellFormed ipnet /\ (net.ParseCIDR s <> None \/ net.ParseIP s <> None)
  | inr e =>
      e = Errorf_w ErrInvalidIPSpecification s
      /\ net.ParseCIDR s = None /\ net.ParseIP s = None
  end.
Proof.
  destruct (netFromIPOrCIDR s) as [ipnet|e] eqn:E.
  - split; [exact (netFromIPOrCIDR_wellFormed _ _ E)|].
    unfold netFromIPOrCIDR in E.
    destruct (net.ParseCIDR s); [left; discriminate|].
    destruct (net.ParseIP s); [right; discriminate|discriminate].
  - unfold netFromIPOrCIDR in E.
    destruct (net.ParseCIDR s) as [[ip n]|]; [discriminate|].
    destruct (net.ParseIP s); [discriminate|].
    cbn [net.isNil] in E. injection E as <-. repeat split.
Qed.

(** X9. A store filled through [AddFromString] holds well-formed networks
    only, so it trusts no nil address and no address whose normalised form
    is not 4 or 16 bytes long: [IsIPTrusted] returns nil for them. *)
Theorem nil_never_trusted (specs : list string) (ip : net.IP) :
  Forall wellFormed (trustedCIDRs (trusting specs))
  /\ (IsIPTrusted (trusting specs) ip <> None ->
      net.isNil ip = false
      /\ (net.len (normalized ip) = 4 \/ net.len (normalized ip) = 16))
  /\ IsIPTrusted (trusting specs) None = None.
Proof.
  assert (W : Forall wellFormed (trustedCIDRs (trusting specs))).
  { unfold trusting.
    assert (G : forall specs t,
               Forall wellFormed (trustedCIDRs t) ->
               Forall wellFormed
                 (trustedCIDRs
                    (fold_left (fun t spec => fst (AddFromString t spec)) specs t))).
    { clear. induction specs as [|s specs IH]; intros t Ht; simpl; [assumption|].
      apply IH. unfold AddFromString.
      destruct (netFromIPOrCIDR s) as [n|e] eqn:E; simpl; [|assumption].
      apply Forall_app. split; [assumption|].
      constructor; [exact (netFromIPOrCIDR_wellFormed _ _ E)|constructor]. }
    apply G. constructor. }
  assert (L : forall a, IsIPTrusted (trusting specs) a <> None ->
                        net.len (normalized a) = 4 \/ net.len (normalized a) = 16).
  { intros a Ha. destruct (IsIPTrusted (trusting specs) a) as [r|] eqn:Hr;
      [|contradiction].
    destruct (IsIPTrusted_first _ _ _ Hr) as (before & after & E & Hc & _).
    rewrite Forall_forall in W.
    apply (Contains_wellFormed_len r a); [|assumption].
    apply W. rewrite E. apply in_or_app. right. now left. }
  split; [exact W|]. split.
  - intros Ht. split; [|now apply L].
    destruct ip as [l|]; [reflexivity|].
    destruct (L None Ht) as [H|H]; discriminate.
  - destruct (IsIPTrusted (trusting specs) None) eqn:E; [|reflexivity].
    assert (Hne : IsIPTrusted (trusting specs) None <> None) by congruence.
    destruct (L None Hne) as [H|H]; discriminate.
Qed.

Lemma nil_never_trusted_witness :
  net.isNil (net.ParseIP "192.168.10.2") = false
  /\ IsIPTrusted (trusting ["192.168.10.10/24"%string; "nonsense"%string; "::1"%string])
       None = None.
Proof.
  pose proof (nil_never_trusted
                ["192.168.10.10/24"%string; "nonsense"%string; "::1"%string]
                (net.ParseIP "192.168.10.2")) as (_ & H & Hn).
  split; [|exact Hn]. apply H. vm_compute. discriminate.
Defined.

(** ** A bare address is an exact match *)

Lemma land_byte (x : Z) : isByte x -> Z.land x 255 = x.
Proof.
  unfold isByte. intros H. change 255 with (Z.ones 8).
  rewrite Z.land_ones by lia. apply Z.mod_small. change (2 ^ 8) with 256. lia.
Qed.

Lemma sameUnderMask_ones (a : list Z) :
  forall b, List.length a = List.length b ->
            Forall isByte a -> Forall isByte b ->
            (net.sameUnderMask a b (repeat 255 (List.length a)) = true <-> a = b).
Proof.
  induction a as [|x a IH]; intros [|y b] Hl Ha Hb; simpl in *; try discriminate.
  - split; reflexivity.
  - inversion Ha as [|? ? Hx Ha']; subst. inversion Hb as [|? ? Hy Hb']; subst.
    rewrite (land_byte x Hx), (land_byte y Hy).
    specialize (IH b ltac:(lia) Ha' Hb'). split.
    + intros H. apply andb_prop in H. destruct H as [H1 H2].
      apply Z.eqb_eq in H1. apply IH in H2. congruence.
    + intros H. injection H as -> ->. rewrite Z.eqb_refl. simpl. now apply IH.
Qed.

Lemma To4_16_inv (l x : list Z) :
  List.length l = 16%nat -> net.To4 (Some l) = Some x ->
  l = net.v4InV6Prefix ++ x.
Proof.
  intros Hl H. open_list l Hl. unfold net.To4 in H.
  cbn [net.len net.elems List.length] in H.
  change (Z.of_nat 16 =? net.IPv4len) with false in H.
  change (Z.of_nat 16 =? net.IPv6len) with true in H.
  cbn [andb firstn skipn nth net.isZeros forallb] in H.
  match type of H with (if ?c then _ else _) = _ => destruct c eqn:C end;
    [|discriminate].
  injection H as <-. rewrite !andb_true_iff in C.
  repeat match goal with E : _ /\ _ |- _ => destruct E end.
  repeat match goal with E : (_ =? _) = true |- _ => apply Z.eqb_eq in E end.
  subst. reflexivity.
Qed.

Lemma normalized_inj (b c : list Z) :
  List.length b = 16%nat -> List.length c = 16%nat ->
  normalized (Some c) = normalized (Some b) -> c = b.
Proof.
  intros Hb Hc. unfold normalized.
  destruct (net.To4 (Some b)) as [x|] eqn:Eb;
    destruct (net.To4 (Some c)) as [y|] eqn:Ec; intros H; injection H as H.
  - rewrite (To4_16_inv _ _ Hb Eb), (To4_16_inv _ _ Hc Ec). now rewrite H.
  - apply To4_len in Eb. subst. lia.
  - apply To4_len in Ec. subst. lia.
  - assumption.
Qed.

Lemma normalized_bytes (c : list Z) :
  List.length c = 16%nat -> Forall isByte c ->
  exists y, normalized (Some c) = Some y /\ Forall isByte y
            /\ (List.length y = 4%nat \/ List.length y = 16%nat).
Proof.
  intros Hl Hb. unfold normalized.
  destruct (net.To4 (Some c)) as [y|] eqn:E.
  - exists y. split; [reflexivity|]. split; [|left; exact (To4_len _ _ E)].
    rewrite (To4_16_inv _ _ Hl E) in Hb. now apply Forall_app in Hb.
  - exists c. split; [reflexivity|]. split; [assumption|now right].
Qed.

Lemma Contains_full4 (x : list Z) (a : net.IP) :
  List.length x = 4%nat ->
  net.Contains (net.mkIPNet (Some x) (Some (net.maskBytes 4 32))) a
  = (net.len (normalized a) =? 4)
    && net.sameUnderMask x (net.elems (normalized a)) (repeat 255 4).
Proof.
  intros Hx. open_list x Hx. unfold net.Contains, normalized. cbn.
  destruct (_ =? 4); reflexivity.
Qed.

Lemma Contains_full16 (b : list Z) (a : net.IP) :
  List.length b = 16%nat -> net.To4 (Some b) = None ->
  net.Contains (net.mkIPNet (Some b) (Some (net.maskBytes 16 128))) a
  = (net.len (normalized a) =? 16)
    && net.sameUnderMask b (net.elems (normalized a)) (repeat 255 16).
Proof.
  intros Hb E. unfold net.Contains, net.networkNumberAndMask.
  cbn [net.IPNet_IP net.IPNet_Mask]. rewrite E.
  change (match net.To4 a with Some x => Some x | None => a end)
    with (normalized a).
  generalize (normalized a). intros a'.
  change (net.maskBytes 16 128) with (repeat 255 16).
  unfold net.len at 1. rewrite Hb. unfold net.IPv4len, net.IPv6len. cbn.
  rewrite Hb. cbn. rewrite Hb. change (Z.of_nat 16) with 16.
  destruct (net.len a' =? 16); reflexivity.
Qed.

Lemma bare_net_Contains (b : list Z) (a : net.IP) :
  List.length b = 16%nat ->
  exists z,
    normalized (Some b) = Some z
    /\ net.Contains
         (net.mkIPNet (normalized (Some b))
            (net.CIDRMask (8 * net.len (normalized (Some b)))
               (8 * net.len (normalized (Some b))))) a
       = (net.len (normalized a) =? Z.of_nat (List.length z))
         && net.sameUnderMask z (net.elems (normalized a))
              (repeat 255 (List.length z)).
Proof.
  intros Hb. unfold normalized at 1 2 3 4.
  destruct (net.To4 (Some b)) as [x|] eqn:E.
  - exists x. split; [reflexivity|]. pose proof (To4_len _ _ E) as Hx.
    unfold net.len at 1 2. rewrite Hx.
    change (net.CIDRMask (8 * Z.of_nat 4) (8 * Z.of_nat 4))
      with (Some (net.maskBytes 4 32)).
    now apply Contains_full4.
  - exists b. split; [reflexivity|].
    unfold net.len at 1 2. rewrite Hb.
    change (net.CIDRMask (8 * Z.of_nat 16) (8 * Z.of_nat 16))
      with (Some (net.maskBytes 16 128)).
    now apply Contains_full16.
Qed.

Lemma bare_net_exact (b c : list Z) :
  List.length b = 16%nat -> Forall isByte b ->
  List.length c = 16%nat -> Forall isByte c ->
  (net.Contains
     (net.mkIPNet (normalized (Some b))
        (net.CIDRMask (8 * net.len (normalized (Some b)))
           (8 * net.len (normalized (Some b))))) (Some c) = true
   <-> c = b).
Proof.
  intros Hlb Hbb Hlc Hbc.
  destruct (bare_net_Contains b (Some c) Hlb) as (z & Hz & ->).
  destruct (normalized_bytes b Hlb Hbb) as (z' & Hz' & Hzb & _).
  rewrite Hz in Hz'. injection Hz' as <-.
  destruct (normalized_bytes c Hlc Hbc) as (y & Hy & Hyb & _).
  rewrite Hy. cbn [net.len net.elems]. split.
  - intros H. apply andb_prop in H. destruct H as [H1 H2].
    apply Z.eqb_eq in H1.
    apply sameUnderMask_ones in H2; [|lia|assumption|assumption].
    apply normalized_inj; congruence.
  - intros ->. rewrite Hz in Hy. injection Hy as <-.
    rewrite Z.eqb_refl. cbn [andb]. now apply sameUnderMask_ones.
Qed.

Lemma bare_net_nil (b : list Z) :
  List.length b = 16%nat ->
  net.Contains
    (net.mkIPNet (normalized (Some b))
       (net.CIDRMask (8 * net.len (normalized (Some b)))
          (8 * net.len (normalized (Some b))))) None = false.
Proof.
  intros Hlb. destruct (bare_net_Contains b None Hlb) as (z & Hz & ->).
  assert (Hlen : List.length z = 4%nat \/ List.length z = 16%nat).
  { unfold normalized in Hz. destruct (net.To4 (Some b)) as [x|] eqn:E;
      injection Hz as <-; [left; exact (To4_len _ _ E)|now right]. }
  change (normalized None) with (@None (list Z)). cbn [net.len].
  destruct Hlen as [-> | ->]; reflexivity.
Qed.

(** X10. A bare address is an exact match. When the specification is an
    address and no address/prefix-length, the network that
    [netFromIPOrCIDR] makes of it contains an address exactly when that
    address has the same value; so after [AddFromString] on the store of
    [New], the texts that [IsIPTrusted] accepts are the texts that parse to
    the address of the specification (an IPv4 address and its IPv4-mapped
    IPv6 form are one value). *)
Theorem bare_address_exact_match (s : string) (b : list Z) :
  net.ParseCIDR s = None -> net.ParseIP s = Some b ->
  exists ipnet,
    netFromIPOrCIDR s = inl ipnet
    /\ net.Contains ipnet None = false
    /\ (forall q, net.Contains ipnet (net.ParseIP q) = true
                  <-> net.ParseIP q = Some b)
    /\ (forall q, IsIPTrusted (fst (AddFromString New s)) (net.ParseIP q) <> None
                  <-> net.ParseIP q = Some b).
Proof.
  intros Hc Hi. pose proof (netFromIPOrCIDR_bare s b Hc Hi) as Hn. simpl in Hn.
  destruct (ParseIP_bytes _ _ Hi) as [Hl Hby].
  eexists. split; [exact Hn|].
  assert (Q : forall q, net.Contains
                          (net.mkIPNet (normalized (Some b))
                             (net.CIDRMask (8 * net.len (normalized (Some b)))
                                (8 * net.len (normalized (Some b)))))
                          (net.ParseIP q) = true
                        <-> net.ParseIP q = Some b).
  { intros q. destruct (net.ParseIP q) as [c|] eqn:Hq.
    - destruct (ParseIP_bytes _ _ Hq) as [Hlc Hbc].
      rewrite (bare_net_exact b c Hl Hby Hlc Hbc). split; congruence.
    - rewrite (bare_net_nil b Hl). split; discriminate. }
  split; [exact (bare_net_nil b Hl)|]. split; [exact Q|].
  intros q. rewrite <- Q. unfold AddFromString. rewrite Hn.
  unfold IsIPTrusted. cbn [fst trustedCIDRs New app find].
  destruct (net.Contains _ (net.ParseIP q)); split; congruence.
Qed.

Lemma bare_address_exact_match_witness :
  exists ipnet,
    netFromIPOrCIDR "10.10.10.10" = inl ipnet
    /\ (net.Contains ipnet (net.ParseIP "::ffff:10.10.10.10") = true
        <-> net.ParseIP "::ffff:10.10.10.10" = net.ParseIP "10.10.10.10").
Proof.
  destruct (bare_address_exact_match "10.10.10.10"
              [0; 0; 0; 0; 0; 0; 0; 0; 0; 0; 255; 255; 10; 10; 10; 10]
              eq_refl eq_refl) as (ipnet & Hn & _ & Hq & _).
  exists ipnet. split; [exact Hn|]. exact (Hq "::ffff:10.10.10.10"%string).
Defined.

(** ** The number of header entries *)

Lemma Split_length (s : string) (sep : ascii) :
  List.length (strings.Split s sep)
  = S (count_occ ascii_dec (list_ascii_of_string s) sep).
Proof.
  induction s as [|c s IH]; simpl; [reflexivity|].
  destruct (Ascii.eqb_spec c sep) as [->|Hne].
  - simpl. rewrite IH. destruct (ascii_dec sep sep); [reflexivity|contradiction].
  - destruct (ascii_dec c sep); [contradiction|].
    pose proof (Split_nonempty s sep) as Hn.
    destruct (strings.Split s sep); [contradiction|]. simpl in *. exact IH.
Qed.

Lemma Split_single (s seg : string) (sep : ascii) :
  strings.Split s sep = [seg] ->
  seg = s /\ Forall (fun c => c <> sep) (list_ascii_of_string s).
Proof.
  revert seg. induction s as [|c s IH]; intros seg H; simpl in *.
  - injection H as <-. split; [reflexivity|constructor].
  - destruct (Ascii.eqb_spec c sep) as [->|Hne].
    + pose proof (Split_nonempty s sep). injection H as _ H. contradiction.
    + destruct (strings.Split s sep) as [|seg' segs] eqn:E.
      * now apply Split_nonempty in E.
      * injection H as <- ->. destruct (IH seg' eq_refl) as [-> Hf].
        split; [reflexivity|now constructor].
Qed.

(** X11. [headerToIPs] returns no entry exactly when the header has no comma
    and is empty once trimmed. Every other header gives one entry per
    comma-separated segment: one more than the header has commas. *)
Theorem headerToIPs_count (header : string) :
  (headerToIPs header = []
   <-> Forall (fun c => c <> ","%char) (list_ascii_of_string header)
       /\ strings.TrimSpace header = EmptyString)
  /\ (headerToIPs header <> [] ->
      List.length (headerToIPs header)
      = S (count_occ ascii_dec (list_ascii_of_string header) ","%char)).
Proof.
  split.
  - split.
    + intros H. unfold headerToIPs in H.
      destruct (strings.Split header ",") as [|seg [|seg' segs]] eqn:Hs;
        try discriminate.
      * now apply Split_nonempty in Hs.
      * cbn [List.length Nat.eqb nth andb] in H.
        destruct (String.eqb_spec (strings.TrimSpace seg) EmptyString) as [Ht|Ht];
          [|discriminate].
        apply Split_single in Hs. destruct Hs as [-> Hf]. now split.
    + intros [Hf Ht]. apply (headerToIPs_single_blank header header);
        [now apply Split_no_sep|assumption].
  - intros Hne. destruct (headerToIPs_cases header) as [H|H]; [contradiction|].
    rewrite H, length_map. apply Split_length.
Qed.

Lemma headerToIPs_count_witness :
  List.length (headerToIPs ",") = 2%nat
  /\ headerToIPs (String (ascii_of_nat 9) " ") = [].
Proof.
  split.
  - refine (proj2 (headerToIPs_count ","%string) _). discriminate.
  - refine (proj2 (proj1 (headerToIPs_count (String (ascii_of_nat 9) " "))) _).
    split; [|reflexivity]. repeat constructor; discriminate.
Defined.

(** ** Trusting more *)

Lemma scan_prefix (t : TrustedProxies) (n : Z) (back rv chain : list net.IP) :
  scan t n back rv = Returned chain -> exists ext, chain = rv ++ ext.
Proof.
  intros H. apply scan_returned in H.
  destruct H as (near & x & far & _ & _ & [[_ ->]|(_ & _ & ->)]);
    eexists; reflexivity.
Qed.

Lemma scan_monotone (t t' : TrustedProxies) (n n' : Z) (back : list net.IP) :
  (forall ip, IsIPTrusted t ip <> None -> IsIPTrusted t' ip <> None) ->
  forall rv chain chain',
    scan t n back rv = Returned chain ->
    scan t' n' back rv = Returned chain' ->
    exists ext, chain' = chain ++ ext.
Proof.
  intros Hsub. induction back as [|ip back IH]; intros rv chain chain' H H';
    simpl in *.
  - discriminate.
  - destruct (net.isNil ip).
    + injection H as <-. injection H' as <-. exists []. now rewrite app_nil_r.
    + destruct (netip.isSome (IsIPTrusted t ip)) eqn:Ht.
      * apply isSome_trusted in Ht. apply Hsub, isSome_trusted in Ht.
        rewrite Ht in H'. exact (IH _ _ _ H H').
      * injection H as <-.
        destruct (netip.isSome (IsIPTrusted t' ip)).
        -- exact (scan_prefix _ _ _ _ _ H').
        -- injection H' as <-. exists []. now rewrite app_nil_r.
Qed.

(** X12. Trusting more only lengthens the chain. When a second store trusts
    every address the first one trusts, and the walk returns with both, the
    chain found with the first is a prefix of the chain found with the
    second. The store after [AddFromString] is such a second store. *)
Theorem trusting_more_extends_chain (t t' : TrustedProxies) (remoteAddr : net.IP)
    (header : string) (chain chain' : list net.IP) :
  (forall ip, IsIPTrusted t ip <> None -> IsIPTrusted t' ip <> None) ->
  filterOutIPsFromUntrustedSources t remoteAddr header = Returned chain ->
  filterOutIPsFromUntrustedSources t' remoteAddr header = Returned chain' ->
  (exists ext, chain' = chain ++ ext)
  /\ (forall s ip, IsIPTrusted t ip <> None ->
                   IsIPTrusted (fst (AddFromString t s)) ip <> None).
Proof.
  intros Hsub H H'. split.
  - rewrite filterOut_scan in H, H'. exact (scan_monotone _ _ _ _ _ Hsub _ _ _ H H').
  - intros s ip Ht. destruct (IsIPTrusted t ip) as [r|] eqn:E; [|contradiction].
    unfold AddFromString, IsIPTrusted in *.
    destruct (netFromIPOrCIDR s); simpl; [|now rewrite E].
    rewrite find_snoc, E. discriminate.
Qed.

Lemma trusting_more_extends_chain_witness :
  exists ext,
    [net.ParseIP "10.10.10.10"; net.ParseIP "20.20.20.20"; net.ParseIP "30.30.30.30"]
    = [net.ParseIP "10.10.10.10"; net.ParseIP "20.20.20.20"] ++ ext.
Proof.
  refine (proj1 (trusting_more_extends_chain
                   (trusting ["10.10.10.10"%string])
                   (trusting ["10.10.10.10"%string; "20.20.20.20"%string])
                   (net.ParseIP "10.10.10.10") "30.30.30.30, 20.20.20.20"
                   _ _ _ eq_refl eq_refl)).
  intros ip H. destruct (IsIPTrusted (trusting ["10.10.10.10"%string]) ip) eqn:E;
    [|contradiction].
  unfold IsIPTrusted in *. simpl in *.
  destruct (net.Contains _ ip); [discriminate|discriminate].
Defined.
